(** * ChineseIdGenerator: a shallow embedding of [chinese_id_generator.py]

    The generator completes a partially known 18-character resident identity
    number.  This development embeds the enumeration and counting engine of
    the class [ChineseIdGenerator] and proves the properties its design
    document states about it.

    Conventions of the embedding.
    - A Python [str] is a [list ascii]; the model covers ASCII text.
    - A Python [int] is a [Z].
    - A call that can raise returns a [result]; [Raise e] is the exception.
    - A generator is the list of the values it yields; every generator of the
      module either raises before its first value or yields all of them, so a
      [result (list A)] loses nothing.
    - [self.regions] is a [gmap] from codes to names, [self.valid_regions] the
      [gset] of its keys, iterated in the order of [elements]. *)

From Stdlib Require Import ZArith Ascii String List Lia.
From stdpp Require Import base numbers option list sorting gmap strings.

Local Open Scope Z_scope.

(** ** Python values *)

Abbreviation str := (list ascii).

(** A string literal of the source. *)
Definition lit (s : string) : str := list_ascii_of_string s.

(** The exceptions the module can raise. *)
Inductive exn : Type :=
| InvalidLiteral    (* ValueError of [int()] *)
| NoMatchingRegion  (* ValueError raised by [generate_components] *)
| IndexError        (* a string index out of range *)
| IllegalMonthError (* [calendar.monthrange] with a month outside 1..12 *)
| RegexOutsideModel (* a pattern with a metacharacter other than '.' *).

Inductive result (A : Type) : Type :=
| Ok (a : A)
| Raise (e : exn).
Arguments Ok {A} a.
Arguments Raise {A} e.

(** Sequencing: the second call runs only when the first returns. *)
Definition bind {A B : Type} (m : result A) (k : A -> result B) : result B :=
  match m with
  | Ok a => k a
  | Raise e => Raise e
  end.

Notation "x <- m ; k" := (bind m (fun x => k))
  (at level 20, m at level 100, k at level 200, only parsing).

(** [for x in xs: ys.extend(body(x))], stopping at the first exception. *)
Fixpoint for_each {A B : Type} (body : A -> result (list B)) (xs : list A)
  : result (list B) :=
  match xs with
  | [] => Ok []
  | x :: xs' =>
      ys <- body x;
      zs <- for_each body xs';
      Ok (ys ++ zs)
  end.

Module Py.

(** [c.isdigit()] on an ASCII character, with the digit's value: the
    digits are the code points 48 to 57. *)
Definition digit_of_char (c : ascii) : option Z :=
  let code := Z.of_N (N_of_ascii c) in
  if (48 <=? code) && (code <=? 57) then Some (code - 48) else None.

Definition isdigit (c : ascii) : bool := bool_decide (is_Some (digit_of_char c)).

Definition char_of_digit (d : Z) : ascii := ascii_of_N (Z.to_N (48 + d)).

(** [int(s)] on a string of ASCII digits.  Python also accepts a sign,
    surrounding blanks and underscores between digits; no pattern over
    digits, 'X' and '-' produces such a string, and the model raises on
    them. *)
Fixpoint int_digits (acc : Z) (s : str) : result Z :=
  match s with
  | [] => Ok acc
  | c :: s' =>
      match digit_of_char c with
      | Some d => int_digits (10 * acc + d) s'
      | None => Raise InvalidLiteral
      end
  end.

Definition int (s : str) : result Z :=
  match s with
  | [] => Raise InvalidLiteral
  | _ => int_digits 0 s
  end.

(** [s.replace(a, b)] for one-character [a] and [b]. *)
Definition replace (a b : ascii) (s : str) : str :=
  (fun c => if decide (c = a) then b else c) <$> s.

(** [s.count(a)] for a one-character [a]. *)
Definition count (a : ascii) (s : str) : Z :=
  Z.of_nat (length (filter (fun c => c = a) s)).

(** [s.ljust(width, fill)]. *)
Definition ljust (width : nat) (fill : ascii) (s : str) : str :=
  s ++ replicate (width - length s) fill.

(** [s[i]] for an integer index, negative indices counting from the end. *)
Definition index (s : str) (i : Z) : result ascii :=
  let j := if i <? 0 then Z.of_nat (length s) + i else i in
  if j <? 0 then Raise IndexError
  else match s !! Z.to_nat j with
       | Some c => Ok c
       | None => Raise IndexError
       end.

(** [s[a:b]] for constants [0 <= a <= b]. *)
Definition slice (a b : nat) (s : str) : str := take (b - a) (drop a s).

(** [range(start, stop)]. *)
Definition range (start stop : Z) : list Z :=
  (fun i => start + Z.of_nat i) <$> seq 0 (Z.to_nat (stop - start)).

(** [sum(xs)]: the additions run from the left, starting at 0. *)
Definition sum (xs : list Z) : Z := fold_left Z.add xs 0.

(** [str(n)] for [n >= 0]: the decimal digits, most significant first. *)
Fixpoint decimal (fuel : nat) (n : Z) (acc : str) : str :=
  match fuel with
  | O => acc
  | S fuel' =>
      let acc' := char_of_digit (n mod 10) :: acc in
      if n / 10 =? 0 then acc' else decimal fuel' (n / 10) acc'
  end.

Definition str_of_nonneg (n : Z) : str :=
  decimal (S (Z.to_nat (Z.log2 n))) n [].

(** [f"{n:0{width}d}"]: at least [width] characters, zeros after the sign. *)
Definition format_0d (width : nat) (n : Z) : str :=
  if n <? 0 then
    let ds := str_of_nonneg (- n) in
    "-"%char :: replicate (width - 1 - length ds) "0"%char ++ ds
  else
    let ds := str_of_nonneg n in
    replicate (width - length ds) "0"%char ++ ds.

(** The regular expressions the module builds: every '-' of a pattern has
    become '.', every other character stands for itself.  A pattern holding
    another metacharacter is outside the model. *)
Inductive atom : Type :=
| AnyChar
| Literal (c : ascii).

Definition metachar (c : ascii) : bool :=
  bool_decide (c ∈ lit "\^$*+?{}[]|()").

Fixpoint re_compile (p : str) : result (list atom) :=
  match p with
  | [] => Ok []
  | c :: p' =>
      if decide (c = "."%char) then r <- re_compile p'; Ok (AnyChar :: r)
      else if metachar c then Raise RegexOutsideModel
      else r <- re_compile p'; Ok (Literal c :: r)
  end.

(** '.' matches any character except a newline (no DOTALL flag). *)
Definition atom_match (a : atom) (c : ascii) : bool :=
  match a with
  | AnyChar => bool_decide (c ≠ "010"%char)
  | Literal c' => bool_decide (c = c')
  end.

(** [regex.match(s)]: the match is anchored at the start of [s] only. *)
Fixpoint re_match (r : list atom) (s : str) : bool :=
  match r, s with
  | [], _ => true
  | _ :: _, [] => false
  | a :: r', c :: s' => atom_match a c && re_match r' s'
  end.

(** [calendar.monthrange(year, month)[1]] of the standard library:
    [mdays[month] + (month == February and isleap(year))]. *)
Definition isleap (year : Z) : bool :=
  (year mod 4 =? 0) && (negb (year mod 100 =? 0) || (year mod 400 =? 0)).

Definition mdays : list Z := [0; 31; 28; 31; 30; 31; 30; 31; 31; 30; 31; 30; 31].

Definition monthrange_days (year month : Z) : result Z :=
  if (1 <=? month) && (month <=? 12) then
    Ok (default 0 (mdays !! Z.to_nat month)
        + (if (month =? 2) && isleap year then 1 else 0))
  else Raise IllegalMonthError.

End Py.

(** ** The class [ChineseIdGenerator] *)

(** [self.weights] and [self.check_codes] (GB 11643-1999). *)
Definition weights : list Z := [7; 9; 10; 5; 8; 4; 2; 1; 6; 3; 7; 9; 10; 5; 8; 4; 2].
Definition check_codes : str := lit "10X98765432".

(** [calculate_check_code]:
    [total = sum(int(c) * w for c, w in zip(id_17, self.weights))],
    [return self.check_codes[total % 11]]. *)
Definition calculate_check_code (id_17 : str) : result ascii :=
  products <- for_each (fun '(c, w) => d <- Py.int [c]; Ok [d * w]) (zip id_17 weights);
  let total := Py.sum products in
  Py.index check_codes (total mod 11).


(** The six fields of an 18-character input ([parse_pattern]'s dictionary). *)
Record pattern : Type := Pattern {
  region : str;
  year : str;
  month : str;
  day : str;
  sequence : str;
  check : ascii
}.

(** [parse_pattern]: unchecked slices; only [pattern[17]] can raise. *)
Definition parse_pattern (p : str) : result pattern :=
  c <- Py.index p 17;
  Ok {| region := Py.slice 0 6 p;
        year := Py.slice 6 10 p;
        month := Py.slice 10 12 p;
        day := Py.slice 12 14 p;
        sequence := Py.slice 14 17 p;
        check := c |}.

(** [filter_regions]: [regex = re.compile(pattern.replace('-', '.'))], then
    the codes of [self.valid_regions] that [regex.match] accepts. *)
Definition filter_regions (valid_regions : gset str) (p : str) : result (list str) :=
  regex <- Py.re_compile (Py.replace "-" "." p);
  Ok (filter (fun code => Py.re_match regex code) (elements valid_regions)).

(** [generate_numbers]. *)
Definition generate_numbers (p : str) (min_val max_val : Z) : result (list Z) :=
  if bool_decide ("-"%char ∉ p) then
    num <- Py.int p;
    if (min_val <=? num) && (num <=? max_val) then Ok [num] else Ok []
  else
    let length := length p in
    lower <- Py.int (Py.ljust length "0" (Py.replace "-" "0" p));
    upper <- Py.int (Py.ljust length "9" (Py.replace "-" "9" p));
    let start := Z.max min_val lower in
    let end_ := Z.min max_val upper in
    Ok (filter
          (fun num =>
             forallb (fun '(c, o) => bool_decide (c = "-"%char) || bool_decide (c = o))
                     (zip p (Py.format_0d length num)))
          (Py.range start (end_ + 1))).

(** The f-string of [generate_dates]: [f"{year:04d}{month:02d}{day:02d}"]. *)
Definition date_string (year month day : Z) : str :=
  Py.format_0d 4 year ++ Py.format_0d 2 month ++ Py.format_0d 2 day.

(** [generate_dates].  The body of the month loop stands in a [try] whose
    bare [except] continues with the next month. *)
Definition generate_dates (year_pattern month_pattern day_pattern : str)
  : result (list str) :=
  years <- generate_numbers year_pattern 1900 2999;
  for_each (fun year =>
    months <- generate_numbers month_pattern 1 12;
    for_each (fun month =>
      let attempt : result (list str) :=
        max_day <- Py.monthrange_days year month;
        days <- generate_numbers day_pattern 1 max_day;
        Ok (date_string year month <$> days) in
      match attempt with
      | Ok dates => Ok dates
      | Raise _ => Ok []
      end) months) years.

(** [itertools.product] of the pools: the rightmost pool varies fastest. *)
Fixpoint product {A : Type} (pools : list (list A)) : list (list A) :=
  match pools with
  | [] => [[]]
  | pool :: pools' => x ← pool; cons x <$> product pools'
  end.

(** [generate_sequence].  A tuple of one-character strings and its
    [''.join] are the same list of characters. *)
Definition generate_sequence (p : str) : list str :=
  let wild_count := Py.count "-" p in
  if wild_count =? 0 then [p]
  else
    let parts := (fun c => if decide (c = "-"%char) then lit "0123456789" else [c]) <$> p in
    product parts.

(** The helpers nested in [estimate_dates]. *)
Definition _is_leap_year (year : Z) : bool :=
  (year mod 4 =? 0) && (negb (year mod 100 =? 0) || (year mod 400 =? 0)).

Definition _estimate_wildcard_days
    (month common_max leap_max leap_count total_years : Z) : Z :=
  if negb (month =? 2) then total_years * common_max
  else leap_count * leap_max + (total_years - leap_count) * common_max.

Definition _calc_group_days (years : list Z) (day_pattern : str) (max_day : Z)
  : result Z :=
  match years with
  | [] => Ok 0
  | _ =>
      let day_length := length day_pattern in
      lower <- Py.int (Py.ljust day_length "0" (Py.replace "-" "0" day_pattern));
      upper <- Py.int (Py.ljust day_length "9" (Py.replace "-" "9" day_pattern));
      let start := Z.max 1 lower in
      let end_ := Z.min max_day upper in
      if end_ <? start then Ok 0
      else
        regex <- Py.re_compile (Py.replace "-" "." day_pattern);
        let valid_days :=
          Py.sum ((fun _ => 1) <$>
                  filter (fun d => Py.re_match regex (Py.format_0d day_length d))
                         (Py.range start (end_ + 1))) in
        Ok (Z.of_nat (length years) * valid_days)
  end.

Inductive group_key : Type := leap | common.

(** The two futures are submitted for 'leap', then 'common', and their
    results are added in that order. *)
Definition _calculate_exact_days
    (years : list Z) (month : Z) (day_pattern : str) (common_max leap_max : Z)
  : result Z :=
  let year_groups key :=
    match key with
    | leap => filter (fun y => _is_leap_year y) years
    | common => filter (fun y => negb (_is_leap_year y)) years
    end in
  counts <- for_each (fun key =>
    let max_day :=
      match key with
      | leap => if month =? 2 then leap_max else common_max
      | common => common_max
      end in
    n <- _calc_group_days (year_groups key) day_pattern max_day;
    Ok [n]) [leap; common];
  Ok (Py.sum counts).

(** [estimate_dates]: the contribution of one candidate month. *)
Definition month_estimate
    (years : list Z) (leap_years total_years : Z) (day_part : str) (month : Z)
  : result Z :=
  let day_wildcards := Py.count "-" day_part in
  let is_special_day := existsb Py.isdigit day_part in
  common_max_day <- Py.monthrange_days 2001 month;
  let leap_max_day := if month =? 2 then 29 else common_max_day in
  if negb is_special_day && (0 <? day_wildcards) then
    Ok (_estimate_wildcard_days month common_max_day leap_max_day leap_years total_years)
  else
    _calculate_exact_days years month day_part common_max_day leap_max_day.

Definition estimate_dates (pat : pattern) : result Z :=
  let year_part := year pat in
  let month_part := month pat in
  let day_part := day pat in
  years <- generate_numbers year_part 1900 2999;
  match years with
  | [] => Ok 0
  | _ =>
      let leap_years := Py.sum ((fun _ => 1) <$> filter (fun y => _is_leap_year y) years) in
      let total_years := Z.of_nat (length years) in
      months <- generate_numbers month_part 1 12;
      match months with
      | [] => Ok 0
      | _ =>
          totals <- for_each (fun month =>
            n <- month_estimate years leap_years total_years day_part month;
            Ok [n]) months;
          Ok (Py.sum totals)
      end
  end.

(** [estimate_total]. *)
Definition estimate_total (valid_regions : gset str) (pat : pattern) : result Z :=
  matching <- filter_regions valid_regions (region pat);
  let region_count := Z.of_nat (length matching) in
  date_count <- estimate_dates pat;
  let seq_count := 10 ^ Py.count "-" (sequence pat) in
  Ok (region_count * date_count * seq_count).

(** [generate_components]: [itertools.product(valid_regions, dates, seq_gen)]. *)
Definition generate_components (valid_regions : gset str) (pat : pattern)
  : result (list (str * str * str)) :=
  matching <- filter_regions valid_regions (region pat);
  match matching with
  | [] => Raise NoMatchingRegion
  | _ =>
      dates <- generate_dates (year pat) (month pat) (day pat);
      let seq_gen := generate_sequence (sequence pat) in
      Ok (r ← matching; d ← dates; s ← seq_gen; [(r, d, s)])
  end.

(** [process_batch]. *)
Definition process_batch (args : str * str * str) : result (list str) :=
  let '(region, date_str, seq) := args in
  let id_17 := region ++ date_str ++ seq in
  check_code <- calculate_check_code id_17;
  Ok [id_17 ++ [check_code]].

(** [list(itertools.islice(chunks, n))] and the iterator left behind. *)
Fixpoint islice {A : Type} (chunks : list A) (n : N) : list A * list A :=
  match chunks with
  | [] => ([], [])
  | x :: chunks' =>
      if (n =? 0)%N then ([], chunks)
      else let '(batch, rest) := islice chunks' (N.pred n) in (x :: batch, rest)
  end.

Definition chunk_size : N := 100000.

(** The loop that removes duplicates at the end of [parallel_generate]. *)
Fixpoint dedup_loop (results : list str) (seen : gset str) (final : list str)
  : list str :=
  match results with
  | [] => final
  | id_num :: results' =>
      if decide (id_num ∉ seen)
      then dedup_loop results' ({[id_num]} ∪ seen) (final ++ [id_num])
      else dedup_loop results' seen final
  end.

(** [parallel_generate].  [pool.imap_unordered] hands the results of a batch
    over in the order the workers finish: [order k] is that order for the
    [k]-th batch.  The loop runs once per batch and once more to see the
    empty batch; [fuel] bounds its iterations. *)
Section parallel.
Variable valid_regions : gset str.
Variable order : nat -> list (str * str * str) -> list (str * str * str).

Fixpoint batch_loop (fuel k : nat) (check_char : ascii)
    (chunks : list (str * str * str)) (results : list str) : result (list str) :=
  match fuel with
  | O => Ok results
  | S fuel' =>
      let '(batch, chunks') := islice chunks chunk_size in
      match batch with
      | [] => Ok results
      | _ =>
          valid <- for_each (fun args =>
            id_list <- process_batch args;
            Ok (filter (fun id_num =>
                          check_char = "-"%char ∨ Some check_char = last id_num)
                       id_list)) (order k batch);
          batch_loop fuel' (S k) check_char chunks' (results ++ valid)
      end
  end.

Definition parallel_generate (input_id : str) : result (list str) :=
  pat <- parse_pattern input_id;
  let check_char := check pat in
  chunks <- generate_components valid_regions pat;
  results <- batch_loop (S (length chunks)) 0 check_char chunks [];
  Ok (dedup_loop results ∅ []).
End parallel.

(** The total shown by the progress bar: [None] when the estimate raises. *)
Definition progress_total (valid_regions : gset str) (pat : pattern) : option Z :=
  match estimate_total valid_regions pat with
  | Ok total => Some total
  | Raise _ => None
  end.


(** ** The vocabulary of the design document *)

(** The values a generator hands over when an exception ends it silently. *)
Definition yielded {A : Type} (r : result (list A)) : list A :=
  match r with
  | Ok l => l
  | Raise _ => []
  end.

(** A string of decimal digits, and a pattern over digits and the wildcard. *)
Definition digit_string (s : str) : Prop :=
  Forall (fun c => is_Some (Py.digit_of_char c)) s.

Definition wildcard_pattern (p : str) : Prop :=
  Forall (fun c => c = "-"%char ∨ is_Some (Py.digit_of_char c)) p.

(** Position by position: the wildcard matches any single character, every
    other pattern character only itself. *)
Definition agrees (p s : str) : Prop :=
  Forall2 (fun c o => c = "-"%char ∨ c = o) p s.

Global Instance agrees_dec p s : Decision (agrees p s).
Proof. unfold agrees. apply _. Defined.

(** The number a decimal numeral denotes. *)
Fixpoint decimal_value (s : str) : Z :=
  match s with
  | [] => 0
  | c :: s' => default 0 (Py.digit_of_char c) * 10 ^ Z.of_nat (length s') + decimal_value s'
  end.

(** [s] is the zero-padded decimal form of [n] on [width] digits. *)
Definition zero_padded (width : nat) (n : Z) (s : str) : Prop :=
  length s = width ∧ digit_string s ∧ decimal_value s = n.

(** The digits of [n] on [width] positions, most significant first. *)
Fixpoint numeral (width : nat) (n : Z) : str :=
  match width with
  | O => []
  | S width' => numeral width' (n / 10) ++ [Py.char_of_digit (n mod 10)]
  end.

(** The weighted digit sum of the checksum, position by position. *)
Definition weighted_sum (id_17 : str) : Z :=
  foldr Z.add 0
    ((fun i => default 0 (id_17 !! i ≫= Py.digit_of_char) * default 0 (weights !! i))
       <$> seq 0 17).

(** The Gregorian leap-year rule and the length of a month. *)
Global Instance Zdivide_decision (a b : Z) : Decision (a | b).
Proof.
  refine (cast_if (decide (b mod a = 0))).
  - abstract (destruct (decide (a = 0)) as [->|Ha];
      [rewrite Z.mod_0_r in *; subst; apply Z.divide_0_r | by apply Z.mod_divide]).
  - abstract (intros Hd; destruct (decide (a = 0)) as [->|Ha];
      [apply Z.divide_0_l in Hd; subst; by rewrite Z.mod_0_r in *
      | by apply Z.mod_divide in Hd]).
Defined.

Definition leap_year (y : Z) : Prop := (4 | y) ∧ (¬ (100 | y) ∨ (400 | y)).

Global Instance leap_year_dec y : Decision (leap_year y).
Proof. unfold leap_year. apply _. Defined.

Definition common_max_day (m : Z) : Z :=
  match m with
  | 2 => 28
  | 4 | 6 | 9 | 11 => 30
  | _ => 31
  end.

Definition true_day_count (y m : Z) : Z :=
  if decide (m = 2 ∧ leap_year y) then 29 else common_max_day m.

(** [s] is the date [y]-[m]-[d] written YYYYMMDD. *)
Definition YYYYMMDD (y m d : Z) (s : str) : Prop :=
  ∃ ys ms ds, s = ys ++ ms ++ ds ∧
    zero_padded 4 y ys ∧ zero_padded 2 m ms ∧ zero_padded 2 d ds.

(** Year first, then month, then day. *)
Definition date_lt (a b : Z * Z * Z) : Prop :=
  let '(y1, m1, d1) := a in
  let '(y2, m2, d2) := b in
  y1 < y2 ∨ (y1 = y2 ∧ (m1 < m2 ∨ (m1 = m2 ∧ d1 < d2))).

(** The day pattern of the fast path: a wildcard, and no literal digit. *)
Definition fully_wildcarded (day_part : str) : Prop :=
  "-"%char ∈ day_part ∧ Forall (fun c => ¬ is_Some (Py.digit_of_char c)) day_part.

Global Instance fully_wildcarded_dec day_part : Decision (fully_wildcarded day_part).
Proof. unfold fully_wildcarded. apply _. Defined.

(** The days of the clamped range that match the day pattern. *)
Definition matching_days (day_part : str) (max_day : Z) : Z :=
  let lower := decimal_value (Py.replace "-" "0" day_part) in
  let upper := decimal_value (Py.replace "-" "9" day_part) in
  Z.of_nat (length (filter (fun d => agrees day_part (numeral (length day_part) d))
                           (Py.range (Z.max 1 lower) (Z.min max_day upper + 1)))).

(** The contribution of month [m] to the estimate. *)
Definition month_contribution (years : list Z) (day_part : str) (m : Z) : Z :=
  let leap_count := Z.of_nat (length (filter leap_year years)) in
  let common_count := Z.of_nat (length (filter (fun y => ¬ leap_year y) years)) in
  let leap_max_day := if decide (m = 2) then 29 else common_max_day m in
  if decide (fully_wildcarded day_part) then
    common_count * common_max_day m + leap_count * leap_max_day
  else
    leap_count * matching_days day_part leap_max_day
    + common_count * matching_days day_part (common_max_day m).

(** The fast-path contribution as the design document words it: the common
    years at the common length of the month, and a leap-year term, 29 days
    for each leap year, for February only.  It is stated to be set against
    [_estimate_wildcard_days]. *)
Definition documented_fast_path (years : list Z) (m : Z) : Z :=
  let leap_count := Z.of_nat (length (filter leap_year years)) in
  let common_count := Z.of_nat (length (filter (fun y => ¬ leap_year y) years)) in
  common_count * common_max_day m
  + (if decide (m = 2) then leap_count * 29 else 0).

(** The elements of [results] at their first occurrence, in order. *)
Definition first_seen (results : list str) : list str :=
  omap (fun i => x ← results !! i;
                 if decide (x ∈ take i results) then None else Some x)
       (seq 0 (length results)).

(** A well-formed whitelist key: six characters, none a line feed. *)
Definition region_code (code : str) : Prop :=
  length code = 6%nat ∧ "010"%char ∉ code.

(** The completion order of a pool is a rearrangement of the batch. *)
Definition completion_order (order : nat -> list (str * str * str) -> list (str * str * str))
  : Prop :=
  ∀ k batch, order k batch ≡ₚ batch.

(** ** The command line *)

(** The input check of the [__main__] loop: 18 characters, each a digit, '-'
    or 'X'; an input that fails it never reaches [parallel_generate]. *)
Definition valid_input (input_id : str) : bool :=
  bool_decide (length input_id = 18%nat)
  && forallb (fun char => Py.isdigit char || bool_decide (char = "-"%char)
                          || bool_decide (char = "X"%char)) input_id.

(** ** The vocabulary of GB 11643-1999 *)

(** The number a check character stands for: 'X' is ten. *)
Definition check_value (c : ascii) : Z :=
  if decide (c = "X"%char) then 10 else default 0 (Py.digit_of_char c).

(** [s] fills the wildcards of the pattern [p] with digits and keeps its
    other characters. *)
Definition expands (p s : str) : Prop :=
  Forall2 (fun c o => if decide (c = "-"%char)
                      then is_Some (Py.digit_of_char o) else o = c) p s.

(** A prefix of [code] matches [p] as the regular expression does: a
    wildcard takes any character but the line feed. *)
Definition prefix_matches (p code : str) : Prop :=
  (length p ≤ length code)%nat
  ∧ Forall2 (fun c o => (c = "-"%char ∧ o ≠ "010"%char) ∨ (c ≠ "-"%char ∧ c = o))
            p (take (length p) code).

(** A string over the characters the command line admits. *)
Definition input_chars (s : str) : Prop :=
  Forall (fun c => is_Some (Py.digit_of_char c) ∨ c = "-"%char ∨ c = "X"%char) s.

(** * Properties *)

(** ** Results *)

Lemma bind_Ok {A B : Type} (m : result A) (k : A -> result B) (b : B) :
  bind m k = Ok b ↔ ∃ a, m = Ok a ∧ k a = Ok b.
Proof.
  destruct m as [a|e]; simpl; split.
  - eauto.
  - by intros (a' & [= ->] & ?).
  - discriminate.
  - by intros (a' & ? & ?).
Qed.

Lemma for_each_Ok {A B : Type} (body : A -> result (list B)) (f : A -> list B) xs :
  (∀ x, x ∈ xs → body x = Ok (f x)) →
  for_each body xs = Ok (xs ≫= f).
Proof.
  induction xs as [|x xs IH]; intros Hbody; simpl; [done|].
  rewrite Hbody by left. simpl.
  rewrite IH; [done|]. intros y Hy. apply Hbody. by right.
Qed.

(** ** Decimal digits *)

Lemma digit_of_char_Some c d :
  Py.digit_of_char c = Some d → 0 ≤ d ≤ 9 ∧ Py.char_of_digit d = c.
Proof.
  destruct c as [[] [] [] [] [] [] [] []]; simpl; intros [= <-]; done.
Qed.

Lemma digit_of_char_of_digit d :
  0 ≤ d ≤ 9 → Py.digit_of_char (Py.char_of_digit d) = Some d.
Proof.
  intros Hd.
  assert (d = 0 ∨ d = 1 ∨ d = 2 ∨ d = 3 ∨ d = 4 ∨ d = 5 ∨ d = 6 ∨ d = 7
          ∨ d = 8 ∨ d = 9) as Hcases by lia.
  repeat destruct Hcases as [->|Hcases]; try reflexivity. by subst.
Qed.

Lemma digit_not_wildcard c : is_Some (Py.digit_of_char c) → c ≠ "-"%char.
Proof. intros [d Hd] ->. discriminate. Qed.

Lemma digit_value_bounds c :
  0 ≤ default 0 (Py.digit_of_char c) ≤ 9.
Proof.
  destruct (Py.digit_of_char c) as [d|] eqn:Hd; simpl; [|lia].
  by apply digit_of_char_Some in Hd as [? _].
Qed.

Lemma decimal_value_bounds s :
  0 ≤ decimal_value s < 10 ^ Z.of_nat (length s).
Proof.
  induction s as [|c s IH]; simpl length; simpl decimal_value; [simpl; lia|].
  pose proof (digit_value_bounds c).
  rewrite Nat2Z.inj_succ, Z.pow_succ_r by lia. nia.
Qed.

Lemma decimal_value_app a b :
  decimal_value (a ++ b)
  = decimal_value a * 10 ^ Z.of_nat (length b) + decimal_value b.
Proof.
  induction a as [|c a IH]; simpl; [lia|].
  rewrite IH, length_app, Nat2Z.inj_add, Z.pow_add_r by lia. ring.
Qed.

Lemma decimal_value_zeros k s :
  decimal_value (replicate k "0"%char ++ s) = decimal_value s.
Proof. induction k as [|k IH]; simpl; [done|]. rewrite IH. lia. Qed.

Lemma int_digits_spec s acc :
  digit_string s →
  Py.int_digits acc s = Ok (acc * 10 ^ Z.of_nat (length s) + decimal_value s).
Proof.
  intros Hs. revert acc.
  induction Hs as [|c s [d Hd] _ IH]; intros acc; simpl.
  - f_equal. lia.
  - rewrite Hd, IH. simpl. f_equal.
    rewrite Nat2Z.inj_succ, Z.pow_succ_r by lia. ring.
Qed.

Lemma int_spec s :
  s ≠ [] → digit_string s → Py.int s = Ok (decimal_value s).
Proof.
  intros Hne Hs. destruct s as [|c s]; [done|].
  unfold Py.int. by rewrite int_digits_spec.
Qed.

Lemma decimal_value_inj s1 s2 :
  digit_string s1 → digit_string s2 → length s1 = length s2 →
  decimal_value s1 = decimal_value s2 → s1 = s2.
Proof.
  intros Hs1. revert s2.
  induction Hs1 as [|c1 s1 [d1 Hd1] _ IH]; intros s2 Hs2 Hlen Hval.
  - by destruct s2.
  - destruct Hs2 as [|c2 s2 [d2 Hd2] Hs2]; [done|].
    simpl in Hlen, Hval. injection Hlen as Hlen.
    rewrite Hd1, Hd2, Hlen in Hval. simpl in Hval.
    pose proof (decimal_value_bounds s1) as B1.
    pose proof (decimal_value_bounds s2) as B2.
    rewrite Hlen in B1.
    assert (d1 = d2) as -> by nia.
    apply digit_of_char_Some in Hd1 as [_ <-].
    apply digit_of_char_Some in Hd2 as [_ Hc]. rewrite Hc.
    f_equal. apply IH; [done..|lia].
Qed.

Lemma zero_padded_unique width n s1 s2 :
  zero_padded width n s1 → zero_padded width n s2 → s1 = s2.
Proof.
  intros (L1 & D1 & V1) (L2 & D2 & V2).
  apply decimal_value_inj; congruence.
Qed.

Lemma zero_padded_range width n s :
  zero_padded width n s → 0 ≤ n < 10 ^ Z.of_nat width.
Proof. intros (<- & _ & <-). apply decimal_value_bounds. Qed.

(** ** [str(n)] and the zero-padded format *)

Lemma decimal_spec fuel n acc :
  (0 < fuel)%nat → 0 ≤ n < 10 ^ Z.of_nat fuel →
  ∃ ds, Py.decimal fuel n acc = ds ++ acc ∧ digit_string ds ∧ decimal_value ds = n
        ∧ (0 < length ds)%nat
        ∧ (length ds = 1%nat ∨ 10 ^ (Z.of_nat (length ds) - 1) ≤ n).
Proof.
  revert n acc. induction fuel as [|fuel IH]; intros n acc Hfuel Hn; [lia|].
  simpl Py.decimal.
  assert (0 ≤ n mod 10 ≤ 9) as Hmod by (pose proof (Z.mod_pos_bound n 10); lia).
  pose proof (digit_of_char_of_digit _ Hmod) as Hdig.
  destruct (n / 10 =? 0) eqn:Hq.
  - apply Z.eqb_eq in Hq.
    exists [Py.char_of_digit (n mod 10)]. split; [done|].
    split; [by repeat constructor; rewrite Hdig|].
    split; [|simpl; split; [lia|by left]].
    simpl. rewrite Hdig. simpl. pose proof (Z.div_mod n 10). lia.
  - apply Z.eqb_neq in Hq.
    assert (0 ≤ n / 10 < 10 ^ Z.of_nat fuel) as Hrec.
    { rewrite Nat2Z.inj_succ, Z.pow_succ_r in Hn by lia.
      split; [apply Z.div_pos; lia|]. apply Z.div_lt_upper_bound; lia. }
    assert (0 < fuel)%nat as Hfuel'.
    { destruct fuel; [|lia]. simpl in Hrec. lia. }
    destruct (IH (n / 10) (Py.char_of_digit (n mod 10) :: acc) Hfuel' Hrec)
      as (ds & -> & Hds & Hval & Hlen & Hmin).
    exists (ds ++ [Py.char_of_digit (n mod 10)]).
    split; [by rewrite <-app_assoc|].
    split; [apply Forall_app; split; [done|]; by repeat constructor; rewrite Hdig|].
    split.
    { rewrite decimal_value_app, Hval. simpl. rewrite Hdig. simpl.
      pose proof (Z.div_mod n 10). lia. }
    rewrite length_app. simpl. split; [lia|]. right.
    replace (Z.of_nat (length ds + 1) - 1) with (Z.succ (Z.of_nat (length ds) - 1)) by lia.
    rewrite Z.pow_succ_r by lia.
    assert (10 ^ (Z.of_nat (length ds) - 1) ≤ n / 10) as Hle.
    { destruct Hmin as [->|?]; [simpl; lia|done]. }
    pose proof (Z.div_mod n 10). lia.
Qed.

Lemma str_of_nonneg_spec n :
  0 ≤ n →
  ∃ ds, Py.str_of_nonneg n = ds ∧ digit_string ds ∧ decimal_value ds = n
        ∧ (0 < length ds)%nat
        ∧ (length ds = 1%nat ∨ 10 ^ (Z.of_nat (length ds) - 1) ≤ n).
Proof.
  intros Hn. unfold Py.str_of_nonneg.
  destruct (decimal_spec (S (Z.to_nat (Z.log2 n))) n []) as (ds & Heq & H).
  - lia.
  - split; [done|].
    rewrite Nat2Z.inj_succ, Z2Nat.id by apply Z.log2_nonneg.
    destruct (decide (n = 0)) as [->|Hn0]; [simpl; lia|].
    pose proof (Z.log2_spec n) as [_ Hlt]; [lia|].
    eapply Z.lt_le_trans; [exact Hlt|].
    apply Z.pow_le_mono_l. lia.
  - exists ds. by rewrite Heq, app_nil_r.
Qed.

Lemma format_0d_zero_padded width n :
  (0 < width)%nat → 0 ≤ n < 10 ^ Z.of_nat width →
  zero_padded width n (Py.format_0d width n).
Proof.
  intros Hw [Hn0 Hn]. unfold Py.format_0d.
  destruct (n <? 0) eqn:Hneg; [apply Z.ltb_lt in Hneg; lia|].
  destruct (str_of_nonneg_spec n Hn0) as (ds & -> & Hds & Hval & Hlen & Hmin).
  assert (length ds ≤ width)%nat as Hle.
  { destruct Hmin as [->|Hmin]; [lia|].
    destruct (decide (length ds ≤ width)%nat); [done|].
    assert (10 ^ Z.of_nat width ≤ 10 ^ (Z.of_nat (length ds) - 1)).
    { apply Z.pow_le_mono_r; lia. }
    lia. }
  split; [rewrite length_app, length_replicate; lia|].
  split; [|by rewrite decimal_value_zeros].
  apply Forall_app. split; [|done].
  apply Forall_replicate. by eexists.
Qed.

Lemma zero_padded_format width n s :
  (0 < width)%nat → zero_padded width n s → s = Py.format_0d width n.
Proof.
  intros Hw Hs. eapply zero_padded_unique; [done|].
  apply format_0d_zero_padded; [done|]. by eapply zero_padded_range.
Qed.

Lemma numeral_length width n : length (numeral width n) = width.
Proof.
  revert n. induction width as [|w IH]; intros n; simpl; [done|].
  rewrite length_app, IH. simpl. lia.
Qed.

Lemma numeral_zero_padded width n :
  0 ≤ n < 10 ^ Z.of_nat width → zero_padded width n (numeral width n).
Proof.
  revert n. induction width as [|w IH]; intros n Hn.
  - change (10 ^ Z.of_nat 0) with 1 in Hn.
    split; [done|]. split; [apply Forall_nil_2|simpl; lia].
  - assert (0 ≤ n mod 10 ≤ 9) as Hmod by (pose proof (Z.mod_pos_bound n 10); lia).
    pose proof (digit_of_char_of_digit _ Hmod) as Hdig.
    assert (0 ≤ n / 10 < 10 ^ Z.of_nat w) as Hrec.
    { rewrite Nat2Z.inj_succ, Z.pow_succ_r in Hn by lia.
      split; [apply Z.div_pos; lia|]. apply Z.div_lt_upper_bound; lia. }
    destruct (IH _ Hrec) as (Hl & Hd & Hv).
    split; [apply numeral_length|]. simpl. split.
    + apply Forall_app. split; [done|]. by repeat constructor; rewrite Hdig.
    + rewrite decimal_value_app, Hv. simpl. rewrite Hdig. simpl.
      pose proof (Z.div_mod n 10). lia.
Qed.

Lemma numeral_format width n :
  (0 < width)%nat → 0 ≤ n < 10 ^ Z.of_nat width →
  numeral width n = Py.format_0d width n.
Proof.
  intros Hw Hn. apply zero_padded_format; [done|]. by apply numeral_zero_padded.
Qed.

(** ** The checksum *)

Lemma check_codes_index k :
  0 ≤ k < 11 →
  ∃ c, Py.index check_codes k = Ok c
       ∧ lit "10X98765432" !! Z.to_nat k = Some c
       ∧ c ∈ lit "0123456789X".
Proof.
  intros Hk.
  assert (k = 0 ∨ k = 1 ∨ k = 2 ∨ k = 3 ∨ k = 4 ∨ k = 5 ∨ k = 6 ∨ k = 7
          ∨ k = 8 ∨ k = 9 ∨ k = 10) as Hcases by lia.
  repeat destruct Hcases as [->|Hcases]; try subst k;
    (eexists; split; [reflexivity|]; split; [reflexivity|];
     apply (bool_decide_unpack _); vm_compute; exact I).
Qed.

Lemma int_char c d : Py.digit_of_char c = Some d → Py.int [c] = Ok d.
Proof. intros Hd. simpl. by rewrite Hd. Qed.

Lemma check_code_products (s : str) (ws : list Z) :
  digit_string s →
  for_each (fun '(c, w) => d <- Py.int [c]; Ok [d * w]) (zip s ws)
  = Ok ((fun '(c, w) => default 0 (Py.digit_of_char c) * w) <$> zip s ws).
Proof.
  intros Hs. revert ws.
  induction Hs as [|c s [d Hd] _ IH]; intros [|w ws]; try done.
  simpl. rewrite Hd. simpl. by rewrite IH.
Qed.

(** C1. For every 17-character digit string, [calculate_check_code] returns
    the character of "10X98765432" at the index given by the weighted digit
    sum modulo 11, the weights being 7, 9, 10, 5, 8, 4, 2, 1, 6, 3, 7, 9, 10,
    5, 8, 4, 2; the character lies in "0123456789X" and every evaluation on
    the same input returns it. *)
Theorem calculate_check_code_weighted_sum (id_17 : str) :
  length id_17 = 17%nat → digit_string id_17 →
  ∃ c, calculate_check_code id_17 = Ok c
       ∧ lit "10X98765432" !! Z.to_nat (weighted_sum id_17 mod 11) = Some c
       ∧ weights = [7; 9; 10; 5; 8; 4; 2; 1; 6; 3; 7; 9; 10; 5; 8; 4; 2]
       ∧ c ∈ lit "0123456789X"
       ∧ ∀ id_17', id_17' = id_17 → calculate_check_code id_17' = Ok c.
Proof.
  intros Hlen Hdigits.
  cut (∃ c, calculate_check_code id_17 = Ok c
            ∧ lit "10X98765432" !! Z.to_nat (weighted_sum id_17 mod 11) = Some c
            ∧ c ∈ lit "0123456789X").
  { intros (c & Hc & Hl & Hin). exists c.
    split; [done|]. split; [done|]. split; [done|]. split; [done|].
    by intros ? ->. }
  unfold calculate_check_code. rewrite (check_code_products _ _ Hdigits).
  do 18 (destruct id_17 as [|? id_17]; try discriminate Hlen). clear Hlen Hdigits.
  unfold weighted_sum, weights, Py.sum.
  cbn [bind fmap list_fmap zip zip_with fold_left seq foldr lookup list_lookup
       mbind option_bind default from_option id].
  match goal with
  | |- ∃ c, Py.index _ (?lhs mod 11) = _ ∧ _ !! Z.to_nat (?rhs mod 11) = _ ∧ _ =>
      assert (rhs = lhs) as -> by lia;
      destruct (check_codes_index (lhs mod 11)) as (c & Hc & Hl & Hin);
      [apply Z.mod_pos_bound; lia|]
  end.
  by exists c.
Qed.

Lemma calculate_check_code_witness :
  ∃ c, calculate_check_code (lit "11010119900101001") = Ok c
       ∧ lit "10X98765432" !! Z.to_nat (weighted_sum (lit "11010119900101001") mod 11) = Some c
       ∧ weights = [7; 9; 10; 5; 8; 4; 2; 1; 6; 3; 7; 9; 10; 5; 8; 4; 2]
       ∧ c ∈ lit "0123456789X"
       ∧ ∀ id_17', id_17' = lit "11010119900101001" → calculate_check_code id_17' = Ok c.
Proof.
  apply (calculate_check_code_weighted_sum (lit "11010119900101001")).
  - reflexivity.
  - apply (bool_decide_unpack _). vm_compute. exact I.
Defined.

(** ** Ranges *)

Lemma range_elem_of start stop n : n ∈ Py.range start stop ↔ start ≤ n < stop.
Proof.
  unfold Py.range. rewrite list_elem_of_fmap. split.
  - intros (i & -> & Hi). apply elem_of_seq in Hi. lia.
  - intros Hn. exists (Z.to_nat (n - start)). split; [lia|].
    apply elem_of_seq. lia.
Qed.

Lemma range_sorted start stop : StronglySorted Z.lt (Py.range start stop).
Proof.
  unfold Py.range. generalize (Z.to_nat (stop - start)) as k. intros k.
  revert start. induction k as [|k IH]; intros start; simpl; [constructor|].
  constructor.
  - rewrite <-fmap_S_seq, <-list_fmap_compose.
    erewrite list_fmap_ext; [apply (IH (start + 1))|].
    intros i x _. simpl. lia.
  - apply Forall_forall. intros n Hn. apply list_elem_of_fmap in Hn as (i & -> & Hi).
    apply elem_of_seq in Hi. lia.
Qed.

Lemma filter_strongly_sorted {A} (R : relation A) (P : A → Prop)
    `{∀ x, Decision (P x)} (l : list A) :
  StronglySorted R l → StronglySorted R (filter P l).
Proof.
  induction 1 as [|x l Hl IH Hx]; [constructor|].
  rewrite filter_cons. destruct (decide (P x)); [|done].
  constructor; [done|]. apply Forall_forall. intros y Hy.
  apply list_elem_of_filter in Hy as [_ Hy].
  by eapply Forall_forall in Hx.
Qed.

(** ** Patterns *)

Lemma replace_length a b s : length (Py.replace a b s) = length s.
Proof. unfold Py.replace. by rewrite length_fmap. Qed.

Lemma ljust_id width fill s : length s = width → Py.ljust width fill s = s.
Proof.
  intros <-. unfold Py.ljust. by rewrite Nat.sub_diag, app_nil_r.
Qed.

Lemma replace_wildcard_digits d p :
  is_Some (Py.digit_of_char d) → wildcard_pattern p →
  digit_string (Py.replace "-" d p).
Proof.
  intros Hd Hp. unfold Py.replace. apply Forall_fmap.
  eapply Forall_impl; [exact Hp|]. intros c Hc. unfold compose.
  destruct (decide (c = "-"%char)) as [->|Hne]; [done|].
  by destruct Hc.
Qed.

Lemma no_wildcard_digits p :
  wildcard_pattern p → "-"%char ∉ p → digit_string p.
Proof.
  intros Hp Hno. apply Forall_forall. intros c Hc.
  pose proof (proj1 (Forall_forall _ _) Hp c Hc) as [->|Hd]; [|exact Hd].
  by destruct Hno.
Qed.

Lemma agrees_length p s : agrees p s → length p = length s.
Proof. apply Forall2_length. Qed.

Lemma agrees_no_wildcard p s : "-"%char ∉ p → agrees p s → s = p.
Proof.
  intros Hno Hag. induction Hag as [|c o p s Hco _ IH]; [done|].
  apply not_elem_of_cons in Hno as [Hc Hno].
  destruct Hco as [-> | ->]; [done|]. f_equal. by apply IH.
Qed.

Lemma agrees_refl p : agrees p p.
Proof. apply Forall2_same_length_lookup_2; [done|]. intros; simplify_eq. by right. Qed.

Lemma replace_cons a b c s :
  Py.replace a b (c :: s) = (if decide (c = a) then b else c) :: Py.replace a b s.
Proof. done. Qed.

Lemma agrees_bounds p s :
  wildcard_pattern p → digit_string s → agrees p s →
  decimal_value (Py.replace "-" "0" p) ≤ decimal_value s
  ≤ decimal_value (Py.replace "-" "9" p).
Proof.
  intros Hp Hs Hag. revert Hp Hs.
  induction Hag as [|c o p s Hco Hag IH]; intros Hp Hs; [simpl; lia|].
  apply Forall_cons in Hp as [Hc Hp]. apply Forall_cons in Hs as [[d Hd] Hs].
  specialize (IH Hp Hs).
  pose proof (Forall2_length _ _ _ Hag) as Hlen.
  rewrite !replace_cons. cbn [decimal_value].
  rewrite !replace_length, Hlen, Hd.
  apply digit_of_char_Some in Hd as Hdr. destruct Hdr as [Hdr _].
  assert (0 < 10 ^ Z.of_nat (length s)) by (apply Z.pow_pos_nonneg; lia).
  destruct (decide (c = "-"%char)) as [->|Hne]; simpl.
  - nia.
  - destruct Hco as [? | ->]; [done|]. rewrite Hd. simpl. lia.
Qed.

Lemma pattern_match_agrees p s :
  length p = length s →
  forallb (fun '(c, o) => bool_decide (c = "-"%char) || bool_decide (c = o)) (zip p s) = true
  ↔ agrees p s.
Proof.
  revert s. induction p as [|c p IH]; intros [|o s] Hlen; try done.
  - split; [constructor|done].
  - simpl. injection Hlen as Hlen. rewrite andb_true_iff, IH by done.
    rewrite orb_true_iff, !bool_decide_eq_true. unfold agrees.
    rewrite Forall2_cons. tauto.
Qed.

(** ** [generate_numbers] *)

Lemma int_replace d p :
  p ≠ [] → wildcard_pattern p → is_Some (Py.digit_of_char d) →
  Py.int (Py.replace "-" d p) = Ok (decimal_value (Py.replace "-" d p)).
Proof.
  intros Hne Hp Hd. apply int_spec; [|by apply replace_wildcard_digits].
  intros Hnil. apply (f_equal length) in Hnil.
  rewrite replace_length in Hnil. by destruct p.
Qed.

Lemma generate_numbers_literal p min_val max_val :
  p ≠ [] → digit_string p → "-"%char ∉ p →
  generate_numbers p min_val max_val
  = Ok (if (min_val <=? decimal_value p) && (decimal_value p <=? max_val)
        then [decimal_value p] else []).
Proof.
  intros Hne Hp Hno. unfold generate_numbers.
  rewrite bool_decide_eq_true_2 by done.
  rewrite int_spec by done. simpl. by destruct (_ && _).
Qed.

Lemma generate_numbers_wildcard p min_val max_val :
  p ≠ [] → wildcard_pattern p → "-"%char ∈ p →
  generate_numbers p min_val max_val
  = Ok (filter
          (fun num =>
             forallb (fun '(c, o) => bool_decide (c = "-"%char) || bool_decide (c = o))
                     (zip p (Py.format_0d (length p) num)))
          (Py.range (Z.max min_val (decimal_value (Py.replace "-" "0" p)))
                    (Z.min max_val (decimal_value (Py.replace "-" "9" p)) + 1))).
Proof.
  intros Hne Hp Hwild. unfold generate_numbers.
  rewrite bool_decide_eq_false_2 by (intros Hno; done).
  rewrite !ljust_id by apply replace_length.
  by rewrite !int_replace by (done || by eexists).
Qed.

Lemma generate_numbers_total p min_val max_val :
  p ≠ [] → wildcard_pattern p →
  ∃ l, generate_numbers p min_val max_val = Ok l.
Proof.
  intros Hne Hp. destruct (decide ("-"%char ∈ p)).
  - rewrite generate_numbers_wildcard by done. eauto.
  - rewrite generate_numbers_literal by eauto using no_wildcard_digits. eauto.
Qed.

Lemma generate_numbers_elem_of p min_val max_val l n :
  p ≠ [] → wildcard_pattern p →
  generate_numbers p min_val max_val = Ok l →
  n ∈ l ↔ min_val ≤ n ≤ max_val ∧ ∃ s, zero_padded (length p) n s ∧ agrees p s.
Proof.
  intros Hne Hp Hgen.
  assert (0 < length p)%nat as Hlen by (destruct p; [done|simpl; lia]).
  destruct (decide ("-"%char ∈ p)) as [Hwild|Hno].
  - rewrite generate_numbers_wildcard in Hgen by done. injection Hgen as <-.
    rewrite list_elem_of_filter, range_elem_of. split.
    + intros [Hmatch Hrange].
      pose proof (decimal_value_bounds (Py.replace "-" "0" p)) as B0.
      pose proof (decimal_value_bounds (Py.replace "-" "9" p)) as B9.
      rewrite replace_length in B0, B9.
      assert (zero_padded (length p) n (Py.format_0d (length p) n)) as Hfmt.
      { apply format_0d_zero_padded; [done|lia]. }
      split; [lia|]. eexists. split; [exact Hfmt|].
      apply pattern_match_agrees; [by destruct Hfmt as [-> _]|].
      by apply Is_true_true.
    + intros [Hrange (s & Hs & Hag)].
      pose proof (zero_padded_format _ _ _ Hlen Hs) as <-.
      destruct Hs as (Hl & Hd & Hv).
      pose proof (agrees_bounds _ _ Hp Hd Hag). split; [|lia].
      apply Is_true_true. by apply pattern_match_agrees.
  - pose proof (no_wildcard_digits _ Hp Hno) as Hd.
    rewrite generate_numbers_literal in Hgen by done. injection Hgen as <-.
    split.
    + intros Hn.
      destruct (_ && _) eqn:Hb; [|by apply elem_of_nil in Hn].
      apply list_elem_of_singleton in Hn as ->.
      apply andb_true_iff in Hb as [?%Z.leb_le ?%Z.leb_le].
      split; [lia|]. exists p. split; [done|apply agrees_refl].
    + intros [Hrange (s & (Hl & Hds & Hv) & Hag)].
      apply agrees_no_wildcard in Hag as ->; [|done]. subst n.
      rewrite (proj2 (andb_true_iff _ _)); [by left|].
      split; apply Z.leb_le; lia.
Qed.

Lemma generate_numbers_sorted p min_val max_val l :
  generate_numbers p min_val max_val = Ok l → StronglySorted Z.lt l.
Proof.
  unfold generate_numbers. intros Hgen.
  destruct (bool_decide _).
  - apply bind_Ok in Hgen as (num & _ & Hgen).
    destruct (_ && _); injection Hgen as <-; repeat constructor.
  - apply bind_Ok in Hgen as (lower & _ & Hgen).
    apply bind_Ok in Hgen as (upper & _ & Hgen). injection Hgen as <-.
    apply filter_strongly_sorted, range_sorted.
Qed.

(** C3. For a non-empty pattern over digits and the wildcard,
    [generate_numbers] yields exactly the integers of [min_val, max_val]
    whose zero-padded decimal form on [len(p)] digits agrees with the pattern
    at every position that is not a wildcard; the sequence is strictly
    ascending, finite, and the same on every call with the same arguments. *)
Theorem generate_numbers_exact (p : str) (min_val max_val : Z) :
  p ≠ [] → wildcard_pattern p → min_val ≤ max_val →
  ∃ l, generate_numbers p min_val max_val = Ok l
       ∧ (∀ n, n ∈ l ↔
            min_val ≤ n ≤ max_val ∧ ∃ s, zero_padded (length p) n s ∧ agrees p s)
       ∧ StronglySorted Z.lt l
       ∧ ∀ p' lo hi, p' = p → lo = min_val → hi = max_val →
           generate_numbers p' lo hi = Ok l.
Proof.
  intros Hne Hp _.
  destruct (generate_numbers_total p min_val max_val Hne Hp) as [l Hl].
  exists l. split; [done|]. split; [|split].
  - intros n. by apply generate_numbers_elem_of.
  - by eapply generate_numbers_sorted.
  - by intros ? ? ? -> -> ->.
Qed.

Lemma generate_numbers_exact_witness :
  ∃ l, generate_numbers (lit "1-") 1 12 = Ok l
       ∧ (∀ n, n ∈ l ↔
            1 ≤ n ≤ 12 ∧ ∃ s, zero_padded (length (lit "1-")) n s ∧ agrees (lit "1-") s)
       ∧ StronglySorted Z.lt l
       ∧ ∀ p' lo hi, p' = lit "1-" → lo = 1 → hi = 12 →
           generate_numbers p' lo hi = Ok l.
Proof.
  apply (generate_numbers_exact (lit "1-") 1 12).
  - discriminate.
  - apply (bool_decide_unpack _). vm_compute. exact I.
  - lia.
Defined.

(** ** Regular expressions of patterns *)

Lemma digit_plain c :
  is_Some (Py.digit_of_char c) →
  c ≠ "."%char ∧ Py.metachar c = false ∧ c ≠ "010"%char.
Proof.
  intros [d Hd]. apply digit_of_char_Some in Hd as [Hd <-].
  assert (d = 0 ∨ d = 1 ∨ d = 2 ∨ d = 3 ∨ d = 4 ∨ d = 5 ∨ d = 6 ∨ d = 7
          ∨ d = 8 ∨ d = 9) as Hcases by lia.
  repeat destruct Hcases as [->|Hcases]; try subst d; done.
Qed.

Lemma digit_string_no_newline s : digit_string s → "010"%char ∉ s.
Proof.
  intros Hs Hin. eapply Forall_forall in Hs; [|exact Hin].
  by apply digit_plain in Hs as (_ & _ & ?).
Qed.

(** The compiled pattern accepts the strings that start with a match: a
    wildcard takes any character but the line feed. *)
Lemma re_compile_pattern p :
  wildcard_pattern p →
  ∃ r, Py.re_compile (Py.replace "-" "." p) = Ok r
       ∧ ∀ s, Py.re_match r s = true ↔
              (length p ≤ length s)%nat
              ∧ Forall2 (fun c o => (c = "-"%char ∧ o ≠ "010"%char) ∨ (c ≠ "-"%char ∧ c = o))
                        p (take (length p) s).
Proof.
  induction 1 as [|c p Hc Hp (r & Hr & Hmatch)].
  { exists []. split; [done|]. intros s. simpl. rewrite take_0.
    split; [intros _; split; [lia|constructor]|done]. }
  rewrite replace_cons. simpl Py.re_compile. rewrite Hr. simpl bind.
  destruct (decide (c = "-"%char)) as [->|Hne].
  - rewrite decide_True by done. eexists. split; [done|].
    intros [|o s]; simpl.
    + split; [done|]. intros [? _]. lia.
    + rewrite andb_true_iff, bool_decide_eq_true, Hmatch, Forall2_cons.
      split.
      * intros (Ho & Hl & Hf). split; [lia|]. split; [by left|done].
      * intros (Hl & [[_ Ho]|[? _]] & Hf); [|done]. split; [done|]. split; [lia|done].
  - destruct Hc as [?|Hd]; [done|].
    apply digit_plain in Hd as (Hdot & Hmeta & _).
    rewrite decide_False, Hmeta by done. eexists. split; [done|].
    intros [|o s]; simpl.
    + split; [done|]. intros [? _]. lia.
    + rewrite andb_true_iff, bool_decide_eq_true, Hmatch, Forall2_cons.
      split.
      * intros (-> & Hl & Hf). split; [lia|]. split; [by right|done].
      * intros (Hl & [[? _]|[_ ->]] & Hf); [done|]. split; [done|]. split; [lia|done].
Qed.

Lemma re_match_agrees p r s :
  wildcard_pattern p → Py.re_compile (Py.replace "-" "." p) = Ok r →
  length s = length p → "010"%char ∉ s →
  Py.re_match r s = true ↔ agrees p s.
Proof.
  intros Hp Hr Hlen Hnl.
  destruct (re_compile_pattern p Hp) as (r' & Hr' & Hmatch).
  rewrite Hr in Hr'. injection Hr' as <-.
  rewrite Hmatch, <-Hlen, firstn_all. unfold agrees. split.
  - intros [_ Hf]. eapply Forall2_impl; [exact Hf|]. intros c o [[-> _]|[_ ->]]; auto.
  - intros Hf. split; [done|].
    apply Forall2_same_length_lookup_2; [by eapply Forall2_length|].
    intros i c o Hc Ho.
    pose proof (Forall2_lookup_lr _ _ _ _ _ _ Hf Hc Ho) as Hco.
    destruct (decide (c = "-"%char)) as [->|Hne].
    + left. split; [done|]. intros ->. apply Hnl. by eapply list_elem_of_lookup_2.
    + right. by destruct Hco.
Qed.

(** ** [filter_regions] *)

(** C7. For a six-character pattern over digits and the wildcard and a
    whitelist of six-character codes, [filter_regions] returns exactly the
    whitelist keys that match the pattern position by position: the wildcard
    matches any single character, every other pattern character must equal
    the character of the code at the same position. *)
Theorem filter_regions_exact (valid_regions : gset str) (p : str) :
  length p = 6%nat → wildcard_pattern p →
  (∀ code, code ∈ valid_regions → region_code code) →
  ∃ l, filter_regions valid_regions p = Ok l
       ∧ NoDup l
       ∧ ∀ code, code ∈ l ↔ code ∈ valid_regions ∧ agrees p code.
Proof.
  intros Hlen Hp Hkeys.
  destruct (re_compile_pattern p Hp) as (r & Hr & _).
  unfold filter_regions. rewrite Hr. simpl. eexists. split; [done|]. split.
  - apply NoDup_filter, NoDup_elements.
  - intros code. rewrite list_elem_of_filter, elem_of_elements. split.
    + intros [Hm Hin]. split; [done|].
      destruct (Hkeys code Hin) as [Hl Hnl].
      apply (re_match_agrees p r code); [done|done|congruence|done|].
      by apply Is_true_true.
    + intros [Hin Hag]. split; [|done].
      destruct (Hkeys code Hin) as [Hl Hnl].
      apply Is_true_true. apply (re_match_agrees p r code); [done|done|congruence|done|done].
Qed.

Lemma filter_regions_exact_witness :
  ∃ l, filter_regions {[ lit "110101"; lit "110102"; lit "310101" ]} (lit "1101--") = Ok l
       ∧ NoDup l
       ∧ ∀ code, code ∈ l ↔
           code ∈ ({[ lit "110101"; lit "110102"; lit "310101" ]} : gset str)
           ∧ agrees (lit "1101--") code.
Proof.
  apply (filter_regions_exact {[ lit "110101"; lit "110102"; lit "310101" ]} (lit "1101--")).
  - reflexivity.
  - apply (bool_decide_unpack _). vm_compute. exact I.
  - intros code Hin.
    apply elem_of_union in Hin as [Hin|Hin];
      [apply elem_of_union in Hin as [Hin|Hin]|];
      apply elem_of_singleton in Hin as ->;
      (split; [reflexivity|]; apply (bool_decide_unpack _); vm_compute; exact I).
Defined.

(** ** The estimate for February of 2000-2009 *)

(** C5, as the code computes it.  For the year field "200-", the month field
    "02" and the day field "--", [estimate_dates] returns 283: the candidate
    years are 2000 to 2009, three of them (2000, 2004, 2008) are leap years,
    and 3 * 29 + 7 * 28 = 283. *)
Theorem estimate_dates_february_2000s (region sequence : str) (check : ascii) :
  estimate_dates (Pattern region (lit "200-") (lit "02") (lit "--") sequence check)
  = Ok 283
  ∧ generate_numbers (lit "200-") 1900 2999
    = Ok [2000; 2001; 2002; 2003; 2004; 2005; 2006; 2007; 2008; 2009]
  ∧ filter leap_year [2000; 2001; 2002; 2003; 2004; 2005; 2006; 2007; 2008; 2009]
    = [2000; 2004; 2008]
  ∧ 283 = 3 * 29 + 7 * 28.
Proof. repeat split; vm_compute; reflexivity. Qed.

(** The value 281 of the design document is not the value of the code. *)
Lemma estimate_dates_february_2000s_not_281 :
  estimate_dates
    (Pattern (lit "110101") (lit "200-") (lit "02") (lit "--") (lit "001") "-"%char)
  = Ok 283
  ∧ Ok 283 ≠ @Ok Z 281.
Proof. split; [vm_compute; reflexivity|discriminate]. Qed.

(** ** The sequence field and the total estimate *)

Lemma product_length {A : Type} (pools : list (list A)) :
  length (product pools) = foldr (fun pool n => (length pool * n)%nat) 1%nat pools.
Proof.
  induction pools as [|pool pools IH]; simpl; [done|].
  rewrite <-IH. clear IH. generalize (product pools) as rest. intros rest.
  induction pool as [|x pool IH]; [done|].
  rewrite bind_cons, length_app, length_fmap, IH. simpl. lia.
Qed.

Lemma generate_sequence_length (p : str) :
  Z.of_nat (length (generate_sequence p)) = 10 ^ Py.count "-" p.
Proof.
  unfold generate_sequence.
  destruct (Py.count "-" p =? 0) eqn:Hzero.
  { apply Z.eqb_eq in Hzero. by rewrite Hzero. }
  clear Hzero. rewrite product_length. unfold Py.count.
  induction p as [|c p IH]; [done|].
  rewrite fmap_cons. cbn [foldr]. rewrite Nat2Z.inj_mul, IH.
  destruct (decide (c = "-"%char)) as [->|Hne].
  - rewrite filter_cons_True by done.
    change (Z.of_nat (length (lit "0123456789"))) with 10.
    rewrite length_cons, Nat2Z.inj_succ, Z.pow_succ_r by lia. done.
  - rewrite filter_cons_False by done.
    change (length [c]) with 1%nat. lia.
Qed.

(** C10. The advisory total is the product of three counts: the number of
    codes [filter_regions] returns for the region field, the value of
    [estimate_dates] on the date fields, and 10 to the number of wildcards of
    the sequence field, which is the number of strings [generate_sequence]
    yields for it. *)
Theorem estimate_total_product (valid_regions : gset str) (pat : pattern)
    (matching : list str) (date_count : Z) :
  filter_regions valid_regions (region pat) = Ok matching →
  estimate_dates pat = Ok date_count →
  estimate_total valid_regions pat
  = Ok (Z.of_nat (length matching) * date_count * 10 ^ Py.count "-" (sequence pat))
  ∧ 10 ^ Py.count "-" (sequence pat)
    = Z.of_nat (length (generate_sequence (sequence pat)))
  ∧ Py.count "-" (sequence pat)
    = Z.of_nat (length (filter (fun c => c = "-"%char) (sequence pat))).
Proof.
  intros Hregions Hdates. unfold estimate_total.
  rewrite Hregions, Hdates. simpl.
  split; [done|]. split; [by rewrite generate_sequence_length|done].
Qed.

Lemma estimate_total_product_witness :
  estimate_total {[ lit "110101"; lit "110102"; lit "310101" ]}
    (Pattern (lit "1101--") (lit "2000") (lit "--") (lit "1-") (lit "0--") "-"%char)
  = Ok (Z.of_nat (length [lit "110102"; lit "110101"]) * 120
        * 10 ^ Py.count "-" (lit "0--"))
  ∧ 10 ^ Py.count "-" (lit "0--")
    = Z.of_nat (length (generate_sequence (lit "0--")))
  ∧ Py.count "-" (lit "0--")
    = Z.of_nat (length (filter (fun c => c = "-"%char) (lit "0--"))).
Proof.
  apply (estimate_total_product {[ lit "110101"; lit "110102"; lit "310101" ]}
           (Pattern (lit "1101--") (lit "2000") (lit "--") (lit "1-") (lit "0--") "-"%char)
           [lit "110102"; lit "110101"] 120).
  - vm_compute. reflexivity.
  - vm_compute. reflexivity.
Defined.

(** ** Removal of duplicates *)

Lemma dedup_loop_first_seen (results : list str) (seen : gset str) (final : list str) :
  dedup_loop results seen final
  = final ++ omap (fun i => x ← results !! i;
                            if decide (x ∈ seen ∨ x ∈ take i results)
                            then None else Some x)
                  (seq 0 (length results)).
Proof.
  revert seen final. induction results as [|x results IH]; intros seen final.
  { simpl. by rewrite app_nil_r. }
  cbn [dedup_loop length seq omap list_omap lookup list_lookup mbind option_bind take].
  rewrite <-fmap_S_seq.
  destruct (decide (x ∉ seen)) as [Hnew|Hold].
  - rewrite decide_False by (rewrite elem_of_nil; tauto).
    rewrite IH, <-app_assoc. simpl. do 2 f_equal.
    apply list_omap_ext, Forall2_fmap_r, Forall_Forall2_diag, Forall_forall.
    intros i _. simpl. destruct (results !! i) as [y|]; [simpl|done].
    apply decide_ext. rewrite elem_of_union, elem_of_singleton, elem_of_cons. tauto.
  - apply dec_stable in Hold.
    rewrite decide_True by auto.
    rewrite IH. f_equal.
    apply list_omap_ext, Forall2_fmap_r, Forall_Forall2_diag, Forall_forall.
    intros i _. simpl. destruct (results !! i) as [y|]; [simpl|done].
    apply decide_ext. rewrite elem_of_cons. split; [tauto|].
    intros [?|[->|?]]; auto.
Qed.

Lemma dedup_loop_elem_of (results : list str) (seen : gset str) (final : list str) x :
  x ∈ dedup_loop results seen final ↔ x ∈ final ∨ (x ∈ results ∧ x ∉ seen).
Proof.
  revert seen final. induction results as [|y results IH]; intros seen final; simpl.
  { rewrite elem_of_nil. tauto. }
  destruct (decide (y ∉ seen)) as [Hnew|Hold].
  - rewrite IH, elem_of_app, list_elem_of_singleton, elem_of_cons, not_elem_of_union,
      not_elem_of_singleton.
    destruct (decide (x = y)) as [->|Hne]; tauto.
  - apply dec_stable in Hold. rewrite IH, elem_of_cons.
    split; [tauto|]. intros [?|[[->|?] ?]]; tauto.
Qed.

Lemma dedup_loop_NoDup (results : list str) (seen : gset str) (final : list str) :
  NoDup final → (∀ x, x ∈ final → x ∈ seen) →
  NoDup (dedup_loop results seen final).
Proof.
  revert seen final. induction results as [|y results IH]; intros seen final Hnd Hsub;
    simpl; [done|].
  destruct (decide (y ∉ seen)) as [Hnew|Hold].
  - apply IH.
    + apply NoDup_app. split; [done|]. split; [|apply NoDup_singleton].
      intros x Hx ->%list_elem_of_singleton. by apply Hnew, Hsub.
    + intros x [Hx| ->%list_elem_of_singleton]%elem_of_app; set_solver.
  - by apply IH.
Qed.

(** C9. Whatever the accumulated candidates are, the list that
    [parallel_generate] returns holds each distinct identity number once, at
    the place of its first occurrence: the first occurrences are kept in
    their order and every later duplicate is dropped. *)
Theorem parallel_generate_dedup (results : list str) :
  dedup_loop results ∅ [] = first_seen results
  ∧ NoDup (dedup_loop results ∅ [])
  ∧ (∀ id_num, id_num ∈ dedup_loop results ∅ [] ↔ id_num ∈ results)
  ∧ ∀ valid_regions order input_id,
      parallel_generate valid_regions order input_id
      = (pat <- parse_pattern input_id;
         chunks <- generate_components valid_regions pat;
         accumulated <- batch_loop order (S (length chunks)) 0 (check pat) chunks [];
         Ok (first_seen accumulated)).
Proof.
  assert (∀ l, dedup_loop l ∅ [] = first_seen l) as Hfirst.
  { intros l. rewrite dedup_loop_first_seen. simpl. unfold first_seen.
    apply list_omap_ext, Forall_Forall2_diag, Forall_forall.
    intros i _. destruct (l !! i) as [y|]; [simpl|done].
    apply decide_ext. rewrite elem_of_empty. tauto. }
  split; [apply Hfirst|]. split; [|split].
  - apply dedup_loop_NoDup; [constructor|]. by intros x ?%elem_of_nil.
  - intros x. rewrite dedup_loop_elem_of, elem_of_nil, elem_of_empty. tauto.
  - intros valid_regions order input_id. unfold parallel_generate.
    destruct (parse_pattern input_id) as [pat|]; [cbn [bind]|done].
    destruct (generate_components valid_regions pat) as [chunks|]; [cbn [bind]|done].
    destruct (batch_loop order _ _ _ _ _) as [accumulated|]; [cbn [bind]|done].
    by rewrite Hfirst.
Qed.

(** ** The calendar *)

Lemma mod_divide_eqb a b : a ≠ 0 → (b mod a =? 0) = true ↔ (a | b).
Proof. intros Ha. rewrite Z.eqb_eq. by apply Z.mod_divide. Qed.

Lemma isleap_leap_year y : Py.isleap y = true ↔ leap_year y.
Proof.
  unfold Py.isleap, leap_year.
  rewrite andb_true_iff, orb_true_iff, negb_true_iff, <-not_true_iff_false.
  rewrite !mod_divide_eqb by done. tauto.
Qed.

Lemma _is_leap_year_leap_year y : _is_leap_year y = true ↔ leap_year y.
Proof. apply isleap_leap_year. Qed.

Lemma month_cases m :
  1 ≤ m ≤ 12 →
  m = 1 ∨ m = 2 ∨ m = 3 ∨ m = 4 ∨ m = 5 ∨ m = 6 ∨ m = 7 ∨ m = 8 ∨ m = 9
  ∨ m = 10 ∨ m = 11 ∨ m = 12.
Proof. lia. Qed.

Lemma monthrange_days_true y m :
  1 ≤ m ≤ 12 → Py.monthrange_days y m = Ok (true_day_count y m).
Proof.
  intros Hm. unfold Py.monthrange_days, true_day_count.
  rewrite (proj2 (andb_true_iff _ _)) by (split; apply Z.leb_le; lia).
  apply month_cases in Hm.
  destruct (decide (m = 2)) as [->|Hne].
  - change (2 =? 2) with true. cbn [andb].
    destruct (Py.isleap y) eqn:Hleap.
    + apply isleap_leap_year in Hleap. by rewrite decide_True.
    + rewrite decide_False; [done|]. intros [_ Hl%isleap_leap_year]. congruence.
  - rewrite decide_False by tauto.
    repeat destruct Hm as [->|Hm]; try subst m; done.
Qed.

Lemma common_max_day_true m : common_max_day m = true_day_count 2001 m.
Proof.
  unfold true_day_count. rewrite decide_False; [done|].
  intros [_ [[k Hk] _]]. lia.
Qed.

Lemma true_day_count_bounds y m : 28 ≤ true_day_count y m ≤ 31.
Proof.
  unfold true_day_count, common_max_day. destruct (decide _); [lia|].
  destruct m as [|p|p]; [lia| |lia].
  do 4 (try (destruct p as [p|p|]; try (simpl; lia))).
Qed.

(** ** Loops over generators *)

Lemma bind_nil_bodies {A B : Type} (f : A → list B) (l : list A) :
  (∀ x, f x = []) → l ≫= f = [].
Proof.
  intros Hf. induction l as [|x l IH]; [done|]. by rewrite bind_cons, Hf, IH.
Qed.

Lemma bind_ext {A B : Type} (f g : A → list B) (l : list A) :
  (∀ x, f x = g x) → l ≫= f = l ≫= g.
Proof.
  intros Hfg. induction l as [|x l IH]; [done|]. by rewrite !bind_cons, Hfg, IH.
Qed.

Lemma fmap_bind {A B C : Type} (f : B → C) (g : A → list B) (l : list A) :
  f <$> (l ≫= g) = l ≫= (fun x => f <$> g x).
Proof.
  induction l as [|x l IH]; [done|]. by rewrite !bind_cons, fmap_app, IH.
Qed.

Lemma generate_numbers_range p min_val max_val l n :
  generate_numbers p min_val max_val = Ok l → n ∈ l → min_val ≤ n ≤ max_val.
Proof.
  unfold generate_numbers. intros Hgen Hn. destruct (bool_decide _).
  - apply bind_Ok in Hgen as (num & _ & Hgen).
    destruct (_ && _) eqn:Hb; injection Hgen as <-; [|by apply elem_of_nil in Hn].
    apply list_elem_of_singleton in Hn as ->.
    apply andb_true_iff in Hb as [?%Z.leb_le ?%Z.leb_le]. lia.
  - apply bind_Ok in Hgen as (lower & _ & Hgen).
    apply bind_Ok in Hgen as (upper & _ & Hgen). injection Hgen as <-.
    apply list_elem_of_filter in Hn as [_ Hn]. apply range_elem_of in Hn. lia.
Qed.

Lemma strongly_sorted_bind {A B : Type} (R : relation A) (S : relation B)
    (g : A → list B) (l : list A) :
  StronglySorted R l →
  (∀ x, x ∈ l → StronglySorted S (g x)) →
  (∀ x x' a b, R x x' → x ∈ l → x' ∈ l → a ∈ g x → b ∈ g x' → S a b) →
  StronglySorted S (l ≫= g).
Proof.
  induction 1 as [|x l Hl IH Hx]; intros Hin Hcross; [constructor|].
  rewrite bind_cons. apply StronglySorted_app_2.
  - intros a b Ha Hb. apply list_elem_of_bind in Hb as (x' & Hb & Hx').
    eapply (Hcross x x'); [|by left|by right|done..].
    by eapply Forall_forall in Hx.
  - apply Hin. by left.
  - apply IH.
    + intros y Hy. apply Hin. by right.
    + intros y y' a b ? ? ?. apply Hcross; [done|by right..].
Qed.

Lemma strongly_sorted_lookup {A : Type} (R : relation A) (l : list A) i j a b :
  StronglySorted R l → (i < j)%nat → l !! i = Some a → l !! j = Some b → R a b.
Proof.
  intros Hl. revert i j. induction Hl as [|x l Hl IH Hx]; intros i j Hij Hi Hj; [done|].
  destruct j as [|j]; [lia|]. destruct i as [|i]; simpl in *.
  - injection Hi as <-. eapply Forall_forall in Hx; [done|].
    by eapply list_elem_of_lookup_2.
  - apply (IH i j); [lia|done..].
Qed.

(** ** [generate_dates] *)

Lemma generate_dates_Ok yp mp dp years months :
  generate_numbers yp 1900 2999 = Ok years →
  generate_numbers mp 1 12 = Ok months →
  generate_dates yp mp dp
  = Ok (y ← years; m ← months;
        date_string y m <$> yielded (generate_numbers dp 1 (true_day_count y m))).
Proof.
  intros Hy Hm. unfold generate_dates. rewrite Hy. cbn [bind].
  apply for_each_Ok. intros y _. rewrite Hm. cbn [bind].
  apply for_each_Ok. intros m Hin.
  rewrite monthrange_days_true by (by eapply generate_numbers_range). cbn [bind].
  by destruct (generate_numbers dp 1 (true_day_count y m)).
Qed.

Lemma generate_dates_no_year yp mp dp :
  generate_numbers yp 1900 2999 = Ok [] → generate_dates yp mp dp = Ok [].
Proof. intros Hy. unfold generate_dates. by rewrite Hy. Qed.

Lemma generate_dates_no_month yp mp dp years :
  generate_numbers yp 1900 2999 = Ok years →
  generate_numbers mp 1 12 = Ok [] → generate_dates yp mp dp = Ok [].
Proof.
  intros Hy Hm. rewrite (generate_dates_Ok _ _ _ _ _ Hy Hm).
  f_equal. by apply bind_nil_bodies.
Qed.

Lemma date_string_YYYYMMDD y m d :
  1900 ≤ y ≤ 2999 → 1 ≤ m ≤ 12 → 1 ≤ d ≤ 31 →
  YYYYMMDD y m d (date_string y m d).
Proof.
  intros Hy Hm Hd. exists (Py.format_0d 4 y), (Py.format_0d 2 m), (Py.format_0d 2 d).
  split; [done|].
  repeat split; apply format_0d_zero_padded; (lia || (simpl; lia)).
Qed.

Lemma YYYYMMDD_date_string y m d s : YYYYMMDD y m d s → s = date_string y m d.
Proof.
  intros (ys & ms & ds & -> & Hy & Hm & Hd). unfold date_string.
  by rewrite (zero_padded_format 4 y ys ltac:(lia) Hy),
    (zero_padded_format 2 m ms ltac:(lia) Hm), (zero_padded_format 2 d ds ltac:(lia) Hd).
Qed.

Lemma YYYYMMDD_inj y m d y' m' d' s :
  YYYYMMDD y m d s → YYYYMMDD y' m' d' s → y = y' ∧ m = m' ∧ d = d'.
Proof.
  intros (ys & ms & ds & -> & (Ly & _ & <-) & (Lm & _ & <-) & (Ld & _ & <-)).
  intros (ys' & ms' & ds' & Heq & (Ly' & _ & <-) & (Lm' & _ & <-) & (Ld' & _ & <-)).
  apply app_inj_1 in Heq as [-> Heq]; [|congruence].
  apply app_inj_1 in Heq as [-> ->]; [done|congruence].
Qed.

Lemma YYYYMMDD_length y m d s : YYYYMMDD y m d s → length s = 8%nat.
Proof.
  intros (ys & ms & ds & -> & (Ly & _) & (Lm & _) & (Ld & _)).
  rewrite !length_app. lia.
Qed.

(** The dates as triples, in the order of the three nested loops. *)
Lemma generate_dates_triples dp years months :
  (∀ y, y ∈ years → 1900 ≤ y ≤ 2999) → StronglySorted Z.lt years →
  (∀ m, m ∈ months → 1 ≤ m ≤ 12) → StronglySorted Z.lt months →
  ∃ triples,
    (y ← years; m ← months;
     date_string y m <$> yielded (generate_numbers dp 1 (true_day_count y m)))
    = (fun '(y, m, d) => date_string y m d) <$> triples
    ∧ StronglySorted date_lt triples
    ∧ ∀ y m d, (y, m, d) ∈ triples ↔
        y ∈ years ∧ m ∈ months
        ∧ d ∈ yielded (generate_numbers dp 1 (true_day_count y m)).
Proof.
  intros Hyears Hys Hmonths Hms.
  exists (y ← years; m ← months;
          (fun d => (y, m, d)) <$> yielded (generate_numbers dp 1 (true_day_count y m))).
  split; [|split].
  - rewrite fmap_bind. apply bind_ext. intros y.
    rewrite fmap_bind. apply bind_ext. intros m.
    rewrite <-list_fmap_compose. by apply list_fmap_ext.
  - apply (strongly_sorted_bind Z.lt); [done|..].
    + intros y _. apply (strongly_sorted_bind Z.lt); [done|..].
      * intros m _. apply (StronglySorted_fmap _ Z.lt).
        { intros d d' Hd. right. split; [done|]. right. by split. }
        destruct (generate_numbers dp 1 (true_day_count y m)) as [days|] eqn:Hd;
          [by eapply generate_numbers_sorted|constructor].
      * intros m m' a b Hlt _ _ (d & -> & _)%list_elem_of_fmap (d' & -> & _)%list_elem_of_fmap.
        right. split; [done|]. by left.
    + intros y y' a b Hlt _ _ (m & Ha & _)%list_elem_of_bind (m' & Hb & _)%list_elem_of_bind.
      apply list_elem_of_fmap in Ha as (d & -> & _).
      apply list_elem_of_fmap in Hb as (d' & -> & _). by left.
  - intros y m d. rewrite list_elem_of_bind. split.
    + intros (y' & (m' & (d' & [= -> -> ->] & Hd)%list_elem_of_fmap & Hm)%list_elem_of_bind & Hy).
      done.
    + intros (Hy & Hm & Hd). exists y. split; [|done].
      apply list_elem_of_bind. exists m. split; [|done].
      apply list_elem_of_fmap. by exists d.
Qed.

(** C4. For non-empty patterns over digits and the wildcard,
    [generate_dates] yields exactly the 8-character strings YYYYMMDD whose
    year is yielded by [generate_numbers] on the year pattern within
    1900..2999, whose month is yielded on the month pattern within 1..12, and
    whose day is yielded on the day pattern within 1..N, N being the true
    number of days of that month of that year under the leap-year rule; the
    dates come by ascending year, then month, then day. *)
Theorem generate_dates_exact (year_pattern month_pattern day_pattern : str) :
  year_pattern ≠ [] → wildcard_pattern year_pattern →
  month_pattern ≠ [] → wildcard_pattern month_pattern →
  day_pattern ≠ [] → wildcard_pattern day_pattern →
  ∃ years months dates,
    generate_numbers year_pattern 1900 2999 = Ok years
    ∧ generate_numbers month_pattern 1 12 = Ok months
    ∧ generate_dates year_pattern month_pattern day_pattern = Ok dates
    ∧ (∀ s, s ∈ dates ↔
         ∃ y m d days,
           y ∈ years ∧ m ∈ months
           ∧ generate_numbers day_pattern 1 (true_day_count y m) = Ok days
           ∧ d ∈ days ∧ YYYYMMDD y m d s)
    ∧ (∀ s, s ∈ dates → length s = 8%nat)
    ∧ (∀ i j s1 s2 y1 m1 d1 y2 m2 d2,
         (i < j)%nat → dates !! i = Some s1 → dates !! j = Some s2 →
         YYYYMMDD y1 m1 d1 s1 → YYYYMMDD y2 m2 d2 s2 →
         date_lt (y1, m1, d1) (y2, m2, d2)).
Proof.
  intros Hyne Hyp Hmne Hmp Hdne Hdp.
  destruct (generate_numbers_total year_pattern 1900 2999 Hyne Hyp) as [years Hy].
  destruct (generate_numbers_total month_pattern 1 12 Hmne Hmp) as [months Hm].
  exists years, months. eexists.
  split; [done|]. split; [done|].
  split; [by apply generate_dates_Ok|].
  destruct (generate_dates_triples day_pattern years months)
    as (triples & -> & Hsorted & Htriples);
    [intros; by eapply generate_numbers_range|by eapply generate_numbers_sorted
    |intros; by eapply generate_numbers_range|by eapply generate_numbers_sorted|].
  assert (∀ y m d, (y, m, d) ∈ triples → YYYYMMDD y m d (date_string y m d)) as Hfmt.
  { intros y m d (Hiy & Him & Hid)%Htriples.
    destruct (generate_numbers day_pattern 1 (true_day_count y m)) as [days|] eqn:Hd;
      [|by apply elem_of_nil in Hid].
    pose proof (generate_numbers_range _ _ _ _ _ Hd Hid).
    pose proof (true_day_count_bounds y m).
    apply date_string_YYYYMMDD; [by eapply generate_numbers_range..|lia]. }
  split; [|split].
  - intros s. rewrite list_elem_of_fmap. split.
    + intros ([[y m] d] & -> & Hin).
      pose proof (Hfmt _ _ _ Hin) as Hs. apply Htriples in Hin as (Hiy & Him & Hid).
      destruct (generate_numbers_total day_pattern 1 (true_day_count y m) Hdne Hdp)
        as [days Hd].
      rewrite Hd in Hid. by exists y, m, d, days.
    + intros (y & m & d & days & Hiy & Him & Hd & Hid & Hs).
      exists (y, m, d). split; [by apply YYYYMMDD_date_string|].
      apply Htriples. by rewrite Hd.
  - intros s ([[y m] d] & -> & Hin)%list_elem_of_fmap.
    by eapply YYYYMMDD_length, Hfmt.
  - intros i j s1 s2 y1 m1 d1 y2 m2 d2 Hij Hi Hj Hs1 Hs2.
    apply list_lookup_fmap_Some in Hi as ([[y m] d] & -> & Hi).
    apply list_lookup_fmap_Some in Hj as ([[y' m'] d'] & -> & Hj).
    pose proof (strongly_sorted_lookup _ _ _ _ _ _ Hsorted Hij Hi Hj) as Hlt.
    apply list_elem_of_lookup_2, Hfmt in Hi. apply list_elem_of_lookup_2, Hfmt in Hj.
    destruct (YYYYMMDD_inj _ _ _ _ _ _ _ Hs1 Hi) as (-> & -> & ->).
    by destruct (YYYYMMDD_inj _ _ _ _ _ _ _ Hs2 Hj) as (-> & -> & ->).
Qed.

Lemma generate_dates_exact_witness :
  ∃ years months dates,
    generate_numbers (lit "2000") 1900 2999 = Ok years
    ∧ generate_numbers (lit "02") 1 12 = Ok months
    ∧ generate_dates (lit "2000") (lit "02") (lit "2-") = Ok dates
    ∧ (∀ s, s ∈ dates ↔
         ∃ y m d days,
           y ∈ years ∧ m ∈ months
           ∧ generate_numbers (lit "2-") 1 (true_day_count y m) = Ok days
           ∧ d ∈ days ∧ YYYYMMDD y m d s)
    ∧ (∀ s, s ∈ dates → length s = 8%nat)
    ∧ (∀ i j s1 s2 y1 m1 d1 y2 m2 d2,
         (i < j)%nat → dates !! i = Some s1 → dates !! j = Some s2 →
         YYYYMMDD y1 m1 d1 s1 → YYYYMMDD y2 m2 d2 s2 →
         date_lt (y1, m1, d1) (y2, m2, d2)).
Proof.
  apply (generate_dates_exact (lit "2000") (lit "02") (lit "2-"));
    first [discriminate | apply (bool_decide_unpack _); vm_compute; exact I].
Defined.

(** ** Fatal and harmless empty results *)

Lemma estimate_dates_no_year pat :
  generate_numbers (year pat) 1900 2999 = Ok [] → estimate_dates pat = Ok 0.
Proof. intros Hy. unfold estimate_dates. by rewrite Hy. Qed.

Lemma estimate_dates_no_month pat years :
  generate_numbers (year pat) 1900 2999 = Ok years →
  generate_numbers (month pat) 1 12 = Ok [] → estimate_dates pat = Ok 0.
Proof.
  intros Hy Hm. unfold estimate_dates. rewrite Hy. cbn [bind].
  destruct years; [done|]. by rewrite Hm.
Qed.

Lemma generate_dates_total yp mp dp :
  yp ≠ [] → wildcard_pattern yp → mp ≠ [] → wildcard_pattern mp →
  ∃ dates, generate_dates yp mp dp = Ok dates.
Proof.
  intros Hyne Hyp Hmne Hmp.
  destruct (generate_numbers_total yp 1900 2999 Hyne Hyp) as [years Hy].
  destruct (generate_numbers_total mp 1 12 Hmne Hmp) as [months Hm].
  rewrite (generate_dates_Ok _ _ _ _ _ Hy Hm). eauto.
Qed.

Lemma parallel_generate_no_chunks valid_regions order input_id pat :
  parse_pattern input_id = Ok pat →
  generate_components valid_regions pat = Ok [] →
  parallel_generate valid_regions order input_id = Ok [].
Proof. intros Hp Hc. unfold parallel_generate. by rewrite Hp; cbn [bind]; rewrite Hc. Qed.

(** C8. When no whitelist entry matches the region field,
    [generate_components] raises its error whatever the other fields are, so
    before any date or sequence is enumerated; for well-formed year and month
    patterns it is the only way [generate_components] fails.  When the year
    or the month pattern yields no candidate, nothing is raised: the dates
    are empty, the enumeration is empty, [parallel_generate] returns the
    empty list and [estimate_dates] returns 0. *)
Theorem empty_region_match_is_fatal
    (valid_regions : gset str)
    (order : nat → list (str * str * str) → list (str * str * str))
    (pat : pattern) :
  (filter_regions valid_regions (region pat) = Ok [] →
   generate_components valid_regions pat = Raise NoMatchingRegion
   ∧ ∀ y m d s c,
       generate_components valid_regions (Pattern (region pat) y m d s c)
       = Raise NoMatchingRegion)
  ∧ (∀ code codes,
       filter_regions valid_regions (region pat) = Ok (code :: codes) →
       year pat ≠ [] → wildcard_pattern (year pat) →
       month pat ≠ [] → wildcard_pattern (month pat) →
       ∃ chunks, generate_components valid_regions pat = Ok chunks)
  ∧ (generate_numbers (year pat) 1900 2999 = Ok []
     ∨ (∃ years, generate_numbers (year pat) 1900 2999 = Ok years
                 ∧ generate_numbers (month pat) 1 12 = Ok []) →
     generate_dates (year pat) (month pat) (day pat) = Ok []
     ∧ estimate_dates pat = Ok 0
     ∧ ∀ code codes,
         filter_regions valid_regions (region pat) = Ok (code :: codes) →
         generate_components valid_regions pat = Ok []
         ∧ ∀ input_id, parse_pattern input_id = Ok pat →
             parallel_generate valid_regions order input_id = Ok []).
Proof.
  split; [|split].
  - intros Hnone. split.
    + unfold generate_components. by rewrite Hnone.
    + intros y m d s c. unfold generate_components. simpl region. by rewrite Hnone.
  - intros code codes Hsome Hyne Hyp Hmne Hmp.
    destruct (generate_dates_total (year pat) (month pat) (day pat)) as [dates Hd];
      [done..|].
    unfold generate_components. rewrite Hsome. cbn [bind]. rewrite Hd. cbn [bind]. eauto.
  - intros Hempty.
    assert (generate_dates (year pat) (month pat) (day pat) = Ok []) as Hdates.
    { destruct Hempty as [Hy|(years & Hy & Hm)];
        [by apply generate_dates_no_year|by eapply generate_dates_no_month]. }
    split; [done|]. split.
    { destruct Hempty as [Hy|(years & Hy & Hm)];
        [by apply estimate_dates_no_year|by eapply estimate_dates_no_month]. }
    intros code codes Hsome.
    assert (generate_components valid_regions pat = Ok []) as Hchunks.
    { unfold generate_components. rewrite Hsome. cbn [bind]. rewrite Hdates. cbn [bind].
      f_equal. by apply bind_nil_bodies. }
    split; [done|]. intros input_id Hp. by eapply parallel_generate_no_chunks.
Qed.

Lemma empty_region_match_is_fatal_witness :
  (generate_components {[ lit "110101" ]}
     (Pattern (lit "31----") (lit "1990") (lit "01") (lit "01") (lit "001") "-"%char)
   = Raise NoMatchingRegion
   ∧ ∀ y m d s c,
       generate_components {[ lit "110101" ]} (Pattern (lit "31----") y m d s c)
       = Raise NoMatchingRegion)
  ∧ (∃ chunks,
       generate_components {[ lit "110101" ]}
         (Pattern (lit "1101--") (lit "1990") (lit "01") (lit "01") (lit "001") "-"%char)
       = Ok chunks)
  ∧ (generate_dates (lit "1990") (lit "13") (lit "01") = Ok []
     ∧ estimate_dates
         (Pattern (lit "1101--") (lit "1990") (lit "13") (lit "01") (lit "001") "-"%char)
       = Ok 0
     ∧ generate_components {[ lit "110101" ]}
         (Pattern (lit "1101--") (lit "1990") (lit "13") (lit "01") (lit "001") "-"%char)
       = Ok []
     ∧ parallel_generate {[ lit "110101" ]} (fun _ batch => batch)
         (lit "1101--19901301001-")
       = Ok []).
Proof.
  split; [|split].
  - apply (empty_region_match_is_fatal {[ lit "110101" ]} (fun _ batch => batch)
             (Pattern (lit "31----") (lit "1990") (lit "01") (lit "01") (lit "001") "-"%char)).
    vm_compute. reflexivity.
  - apply (proj1 (proj2 (empty_region_match_is_fatal {[ lit "110101" ]} (fun _ batch => batch)
             (Pattern (lit "1101--") (lit "1990") (lit "01") (lit "01") (lit "001") "-"%char)))
             (lit "110101") []);
      first [vm_compute; reflexivity | discriminate
            | apply (bool_decide_unpack _); vm_compute; exact I].
  - destruct (proj2 (proj2 (empty_region_match_is_fatal {[ lit "110101" ]} (fun _ batch => batch)
             (Pattern (lit "1101--") (lit "1990") (lit "13") (lit "01") (lit "001") "-"%char))))
      as (Hdates & Hestimate & Hrest).
    { right. exists [1990]. split; vm_compute; reflexivity. }
    destruct (Hrest (lit "110101") []) as [Hchunks Hrun]; [vm_compute; reflexivity|].
    split; [exact Hdates|]. split; [exact Hestimate|]. split; [exact Hchunks|].
    apply Hrun. vm_compute. reflexivity.
Defined.

(** ** Counting *)

Lemma fold_left_add (xs : list Z) (a : Z) :
  fold_left Z.add xs a = a + foldr Z.add 0 xs.
Proof.
  revert a. induction xs as [|x xs IH]; intros a; simpl; [lia|]. rewrite IH. lia.
Qed.

Lemma sum_ones {A : Type} (l : list A) :
  Py.sum ((fun _ => 1) <$> l) = Z.of_nat (length l).
Proof.
  unfold Py.sum. rewrite fold_left_add.
  induction l as [|x l IH]; [done|]. rewrite fmap_cons, length_cons. simpl foldr. lia.
Qed.

Lemma sum_pair a b : Py.sum [a; b] = a + b.
Proof. unfold Py.sum. simpl. lia. Qed.

Lemma filter_ext_elem {A : Type} (P Q : A → Prop)
    `{∀ x, Decision (P x)} `{∀ x, Decision (Q x)} (l : list A) :
  (∀ x, x ∈ l → P x ↔ Q x) → filter P l = filter Q l.
Proof.
  induction l as [|x l IH]; intros Hext; [done|].
  rewrite !filter_cons.
  rewrite IH by (intros y Hy; apply Hext; by right).
  destruct (decide (P x)) as [HP|HP], (decide (Q x)) as [HQ|HQ]; try done;
    exfalso; apply (Hext x) in HP || apply (Hext x) in HQ; try done; by left.
Qed.

Lemma filter_partition_length {A : Type} (P : A → Prop) `{∀ x, Decision (P x)}
    (l : list A) :
  (length (filter P l) + length (filter (fun x => ¬ P x) l) = length l)%nat.
Proof.
  induction l as [|x l IH]; [done|]. rewrite !filter_cons.
  destruct (decide (P x)), (decide (¬ P x)); simpl; try lia; tauto.
Qed.

Lemma bind_singleton_fmap {A B : Type} (f : A → B) (l : list A) :
  l ≫= (fun x => [f x]) = f <$> l.
Proof. induction l as [|x l IH]; [done|]. by rewrite bind_cons, IH. Qed.

Lemma range_empty start stop : stop ≤ start → Py.range start stop = [].
Proof. intros Hle. unfold Py.range. by replace (Z.to_nat (stop - start)) with 0%nat by lia. Qed.

Lemma leap_filters (years : list Z) :
  filter (fun y => _is_leap_year y) years = filter leap_year years
  ∧ filter (fun y => negb (_is_leap_year y)) years
    = filter (fun y => ¬ leap_year y) years.
Proof.
  split; apply list_filter_iff; intros y.
  - rewrite Is_true_true. apply _is_leap_year_leap_year.
  - rewrite <-_is_leap_year_leap_year. destruct (_is_leap_year y); simpl; naive_solver.
Qed.

(** ** The decision between the fast and the exact path *)

Lemma fast_path_condition day_part :
  negb (existsb Py.isdigit day_part) && (0 <? Py.count "-" day_part) = true
  ↔ fully_wildcarded day_part.
Proof.
  unfold fully_wildcarded, Py.count.
  rewrite andb_true_iff, negb_true_iff, Z.ltb_lt.
  assert (existsb Py.isdigit day_part = false
          ↔ Forall (fun c => ¬ is_Some (Py.digit_of_char c)) day_part) as ->.
  { induction day_part as [|c s IH]; simpl.
    - split; [constructor|done].
    - rewrite orb_false_iff, IH, Forall_cons. unfold Py.isdigit.
      by rewrite bool_decide_eq_false. }
  assert (0 < Z.of_nat (length (filter (fun c => c = "-"%char) day_part))
          ↔ "-"%char ∈ day_part) as ->; [|tauto].
  induction day_part as [|c s IH]; simpl.
  - rewrite elem_of_nil. lia.
  - rewrite filter_cons, elem_of_cons. destruct (decide (c = "-"%char)) as [->|Hne].
    + simpl. split; [by left|lia].
    + rewrite IH. split; [by right|]. intros [?|?]; [congruence|done].
Qed.

(** ** The exact path *)

Lemma _calc_group_days_matching years day_part max_day :
  day_part ≠ [] → wildcard_pattern day_part →
  _calc_group_days years day_part max_day
  = Ok (Z.of_nat (length years) * matching_days day_part max_day).
Proof.
  intros Hne Hp. unfold _calc_group_days, matching_days.
  destruct years as [|y years]; [done|].
  rewrite !ljust_id by apply replace_length.
  rewrite !int_replace by (done || by eexists). cbn [bind].
  set (lower := decimal_value (Py.replace "-" "0" day_part)).
  set (upper := decimal_value (Py.replace "-" "9" day_part)).
  destruct (Z.min max_day upper <? Z.max 1 lower) eqn:Hempty.
  { apply Z.ltb_lt in Hempty. rewrite range_empty by lia.
    cbn [filter list_filter length]. f_equal; lia. }
  destruct (re_compile_pattern day_part Hp) as (r & Hr & _).
  rewrite Hr. cbn [bind]. rewrite sum_ones. do 4 f_equal.
  apply filter_ext_elem. intros d Hd. apply range_elem_of in Hd.
  assert (0 < length day_part)%nat as Hlen by (destruct day_part; [done|simpl; lia]).
  pose proof (decimal_value_bounds (Py.replace "-" "9" day_part)) as Hupper.
  rewrite replace_length in Hupper. fold upper in Hupper.
  assert (0 ≤ d < 10 ^ Z.of_nat (length day_part)) as Hdrange by lia.
  rewrite numeral_format by done.
  destruct (format_0d_zero_padded _ _ Hlen Hdrange) as (Hl & Hdig & _).
  rewrite Is_true_true.
  apply re_match_agrees; [done..|]. by apply digit_string_no_newline.
Qed.

Lemma _calculate_exact_days_matching years m day_part common_max leap_max :
  day_part ≠ [] → wildcard_pattern day_part →
  _calculate_exact_days years m day_part common_max leap_max
  = Ok (Z.of_nat (length (filter leap_year years))
        * matching_days day_part (if decide (m = 2) then leap_max else common_max)
        + Z.of_nat (length (filter (fun y => ¬ leap_year y) years))
          * matching_days day_part common_max).
Proof.
  intros Hne Hp. unfold _calculate_exact_days. cbn [for_each].
  rewrite !_calc_group_days_matching by done. cbn [bind app].
  destruct (leap_filters years) as [-> ->].
  rewrite sum_pair. do 3 f_equal.
  destruct (decide (m = 2)) as [->|Hm]; [done|].
  by rewrite (proj2 (Z.eqb_neq m 2)).
Qed.

(** ** [estimate_dates], month by month *)

Lemma month_estimate_contribution years day_part m :
  day_part ≠ [] → wildcard_pattern day_part → 1 ≤ m ≤ 12 →
  let leap_years := Py.sum ((fun _ => 1) <$> filter (fun y => _is_leap_year y) years) in
  let total_years := Z.of_nat (length years) in
  let leap_max_day := if decide (m = 2) then 29 else common_max_day m in
  month_estimate years leap_years total_years day_part m
  = Ok (month_contribution years day_part m)
  ∧ (fully_wildcarded day_part →
     month_estimate years leap_years total_years day_part m
     = Ok (_estimate_wildcard_days m (common_max_day m) leap_max_day
             leap_years total_years))
  ∧ (¬ fully_wildcarded day_part →
     month_estimate years leap_years total_years day_part m
     = _calculate_exact_days years m day_part (common_max_day m) leap_max_day).
Proof.
  intros Hne Hp Hm leap_years total_years leap_max_day.
  unfold month_estimate, month_contribution.
  rewrite monthrange_days_true, <-common_max_day_true by done. cbn [bind].
  assert ((if m =? 2 then 29 else common_max_day m) = leap_max_day) as ->.
  { unfold leap_max_day. destruct (decide (m = 2)) as [->|Hne2]; [done|].
    by rewrite (proj2 (Z.eqb_neq m 2)). }
  fold leap_max_day.
  destruct (negb (existsb Py.isdigit day_part) && (0 <? Py.count "-" day_part))
    eqn:Hfast.
  - apply fast_path_condition in Hfast.
    rewrite decide_True by done.
    split; [|split; [done|tauto]].
    f_equal. subst leap_years total_years. rewrite sum_ones.
    destruct (leap_filters years) as [-> _].
    pose proof (filter_partition_length leap_year years) as Hpart.
    unfold _estimate_wildcard_days, leap_max_day.
    destruct (decide (m = 2)) as [->|Hne2].
    + change (negb (2 =? 2)) with false. cbn iota. lia.
    + rewrite (proj2 (Z.eqb_neq m 2)) by done. cbn [negb]. nia.
  - assert (¬ fully_wildcarded day_part) as Hslow.
    { intros Hf%fast_path_condition. congruence. }
    rewrite decide_False by done.
    split; [|split; [tauto|done]].
    rewrite _calculate_exact_days_matching by done. unfold leap_max_day.
    by destruct (decide (m = 2)).
Qed.

(** C6, as the code computes it.  In [estimate_dates] every candidate month
    takes the fast path exactly
    when the day pattern holds a wildcard and no literal digit.  On the fast
    path the month contributes the number of common years times the common
    length of the month, plus the number of leap years times the length of
    the month in a leap year (29 in place of the common length for February
    only).  On the exact path the bounds of the day pattern (wildcards
    replaced by '0' and by '9') are clamped to 1 and the length of the month
    that applies to the group; the days of the clamped range that match the
    pattern position by position are counted, the count is multiplied by the
    number of years of the group, and the leap and common subtotals are
    added.  The estimate is the sum over the candidate months. *)
Theorem estimate_dates_by_month (pat : pattern) :
  year pat ≠ [] → wildcard_pattern (year pat) →
  month pat ≠ [] → wildcard_pattern (month pat) →
  day pat ≠ [] → wildcard_pattern (day pat) →
  ∃ years months,
    generate_numbers (year pat) 1900 2999 = Ok years
    ∧ generate_numbers (month pat) 1 12 = Ok months
    ∧ estimate_dates pat
      = Ok (Py.sum (month_contribution years (day pat) <$> months))
    ∧ ∀ m, m ∈ months →
        let leap_years :=
          Py.sum ((fun _ => 1) <$> filter (fun y => _is_leap_year y) years) in
        let total_years := Z.of_nat (length years) in
        let leap_max_day := if decide (m = 2) then 29 else common_max_day m in
        month_estimate years leap_years total_years (day pat) m
        = Ok (month_contribution years (day pat) m)
        ∧ (fully_wildcarded (day pat) →
           month_estimate years leap_years total_years (day pat) m
           = Ok (_estimate_wildcard_days m (common_max_day m) leap_max_day
                   leap_years total_years))
        ∧ (¬ fully_wildcarded (day pat) →
           month_estimate years leap_years total_years (day pat) m
           = _calculate_exact_days years m (day pat) (common_max_day m) leap_max_day).
Proof.
  intros Hyne Hyp Hmne Hmp Hdne Hdp.
  destruct (generate_numbers_total (year pat) 1900 2999 Hyne Hyp) as [years Hy].
  destruct (generate_numbers_total (month pat) 1 12 Hmne Hmp) as [months Hm].
  exists years, months. split; [done|]. split; [done|].
  assert (∀ m, m ∈ months → 1 ≤ m ≤ 12) as Hrange
    by (intros; by eapply generate_numbers_range).
  split; [|intros m Hin; apply month_estimate_contribution; auto].
  unfold estimate_dates. rewrite Hy. cbn [bind].
  destruct years as [|y years].
  { f_equal. unfold month_contribution. simpl. clear.
    induction months as [|m months IH]; [done|].
    rewrite fmap_cons. unfold Py.sum in *. simpl. rewrite fold_left_add in *.
    destruct (decide _); lia. }
  rewrite Hm. cbn [bind]. destruct months as [|m months]; [done|].
  rewrite (for_each_Ok _ (fun m => [month_contribution (y :: years) (day pat) m])).
  - cbn [bind]. by rewrite bind_singleton_fmap.
  - intros m' Hin.
    destruct (month_estimate_contribution (y :: years) (day pat) m' Hdne Hdp
                (Hrange m' Hin)) as [-> _].
    done.
Qed.

Lemma estimate_dates_by_month_witness :
  ∃ years months,
    generate_numbers (lit "200-") 1900 2999 = Ok years
    ∧ generate_numbers (lit "0-") 1 12 = Ok months
    ∧ estimate_dates
        (Pattern (lit "110101") (lit "200-") (lit "0-") (lit "3-") (lit "001") "-"%char)
      = Ok (Py.sum (month_contribution years (lit "3-") <$> months))
    ∧ ∀ m, m ∈ months →
        let leap_years :=
          Py.sum ((fun _ => 1) <$> filter (fun y => _is_leap_year y) years) in
        let total_years := Z.of_nat (length years) in
        let leap_max_day := if decide (m = 2) then 29 else common_max_day m in
        month_estimate years leap_years total_years (lit "3-") m
        = Ok (month_contribution years (lit "3-") m)
        ∧ (fully_wildcarded (lit "3-") →
           month_estimate years leap_years total_years (lit "3-") m
           = Ok (_estimate_wildcard_days m (common_max_day m) leap_max_day
                   leap_years total_years))
        ∧ (¬ fully_wildcarded (lit "3-") →
           month_estimate years leap_years total_years (lit "3-") m
           = _calculate_exact_days years m (lit "3-") (common_max_day m) leap_max_day).
Proof.
  apply (estimate_dates_by_month
           (Pattern (lit "110101") (lit "200-") (lit "0-") (lit "3-") (lit "001") "-"%char));
    first [discriminate | apply (bool_decide_unpack _); vm_compute; exact I].
Defined.

(** The fast path counts the leap years in every month, not in February only.
    For the years 2000 to 2009, January and the day pattern "--" the code
    takes the fast path and returns 10 * 31 = 310; the formula of the design
    document leaves the three leap years out and gives 7 * 31 = 217. *)
Lemma estimate_dates_leap_years_outside_february :
  estimate_dates
    (Pattern (lit "110101") (lit "200-") (lit "01") (lit "--") (lit "001") "-"%char)
  = Ok 310
  ∧ generate_numbers (lit "200-") 1900 2999
    = Ok [2000; 2001; 2002; 2003; 2004; 2005; 2006; 2007; 2008; 2009]
  ∧ generate_numbers (lit "01") 1 12 = Ok [1]
  ∧ fully_wildcarded (lit "--")
  ∧ _estimate_wildcard_days 1 31 31 3 10 = 310
  ∧ Py.sum (documented_fast_path
              [2000; 2001; 2002; 2003; 2004; 2005; 2006; 2007; 2008; 2009] <$> [1])
    = 217
  ∧ estimate_dates
      (Pattern (lit "110101") (lit "200-") (lit "01") (lit "--") (lit "001") "-"%char)
    ≠ Ok (Py.sum (documented_fast_path
                    [2000; 2001; 2002; 2003; 2004; 2005; 2006; 2007; 2008; 2009]
                    <$> [1])).
Proof.
  assert (estimate_dates
            (Pattern (lit "110101") (lit "200-") (lit "01") (lit "--") (lit "001")
                     "-"%char) = Ok 310) as Hcode by (vm_compute; reflexivity).
  assert (Py.sum (documented_fast_path
                    [2000; 2001; 2002; 2003; 2004; 2005; 2006; 2007; 2008; 2009]
                    <$> [1]) = 217) as Hdoc by (vm_compute; reflexivity).
  split; [exact Hcode|]. split; [vm_compute; reflexivity|].
  split; [vm_compute; reflexivity|].
  split; [apply (bool_decide_unpack _); vm_compute; exact I|].
  split; [vm_compute; reflexivity|]. split; [exact Hdoc|].
  rewrite Hcode, Hdoc. discriminate.
Qed.

(** ** Loops that may raise *)

Lemma for_each_elem_of {A B : Type} (body : A → result (list B)) xs ys :
  for_each body xs = Ok ys →
  (∀ x, x ∈ xs → ∃ y, body x = Ok y)
  ∧ ∀ z, z ∈ ys ↔ ∃ x y, x ∈ xs ∧ body x = Ok y ∧ z ∈ y.
Proof.
  revert ys. induction xs as [|x xs IH]; intros ys Hys; simpl in Hys.
  { injection Hys as <-. split; [by intros x ?%elem_of_nil|].
    intros z. split; [by intros ?%elem_of_nil|]. by intros (x & y & ?%elem_of_nil & _). }
  apply bind_Ok in Hys as (y & Hy & Hys).
  apply bind_Ok in Hys as (zs & Hzs & Hys). injection Hys as <-.
  destruct (IH zs Hzs) as [IHok IHin]. split.
  - intros x' [->|Hx']%elem_of_cons; eauto.
  - intros z. rewrite elem_of_app, IHin. split.
    + intros [Hz|(x' & y' & Hx' & Hy' & Hz)].
      * exists x, y. split; [by left|done].
      * exists x', y'. split; [by right|done].
    + intros (x' & y' & [->|Hx']%elem_of_cons & Hy' & Hz).
      * left. congruence.
      * right. eauto.
Qed.

(** ** Batches *)

Lemma islice_app {A : Type} (chunks : list A) n batch rest :
  islice chunks n = (batch, rest) → chunks = batch ++ rest.
Proof.
  revert n batch rest. induction chunks as [|x chunks IH]; intros n batch rest; simpl.
  { by intros [= <- <-]. }
  destruct (n =? 0)%N; [by intros [= <- <-]|].
  destruct (islice chunks (N.pred n)) as [b r] eqn:Hrec.
  intros [= <- <-]. simpl. f_equal. by eapply IH.
Qed.

Lemma islice_nil {A : Type} (chunks : list A) n rest :
  (0 < n)%N → islice chunks n = ([], rest) → chunks = [].
Proof.
  intros Hn. destruct chunks as [|x chunks]; [done|]. simpl.
  rewrite (proj2 (N.eqb_neq n 0)) by lia.
  by destruct (islice chunks (N.pred n)).
Qed.

(** The accumulated results after the batches: what was there before, and
    the identity numbers of the candidates that pass the check filter. *)
Lemma batch_loop_elem_of order fuel k check_char chunks results out :
  completion_order order → (length chunks < fuel)%nat →
  batch_loop order fuel k check_char chunks results = Ok out →
  (∀ args, args ∈ chunks → ∃ id_list, process_batch args = Ok id_list)
  ∧ ∀ z, z ∈ out ↔
      z ∈ results
      ∨ ∃ args id_list,
          args ∈ chunks ∧ process_batch args = Ok id_list ∧ z ∈ id_list
          ∧ (check_char = "-"%char ∨ Some check_char = last z).
Proof.
  intros Horder. revert k chunks results.
  induction fuel as [|fuel IH]; intros k chunks results Hfuel Hout; [lia|].
  simpl in Hout. destruct (islice chunks chunk_size) as [batch rest] eqn:Hslice.
  pose proof (islice_app _ _ _ _ Hslice) as ->.
  destruct batch as [|args0 batch].
  { apply islice_nil in Hslice; [|done]. injection Hout as <-.
    apply app_eq_nil in Hslice as [_ ->]. simpl. split.
    - by intros args ?%elem_of_nil.
    - intros z. split; [by left|]. by intros [?|(args & ? & ?%elem_of_nil & _)]. }
  apply bind_Ok in Hout as (valid & Hvalid & Hout).
  apply for_each_elem_of in Hvalid as [Hok Hvalid].
  apply IH in Hout as [IHok IHin]; [|rewrite length_app in Hfuel; simpl in Hfuel; lia].
  assert (∀ args, args ∈ order k (args0 :: batch) ↔ args ∈ args0 :: batch) as Hperm.
  { intros args. by rewrite (Horder k (args0 :: batch)). }
  split.
  - intros args [Hin|Hin]%elem_of_app; [|by apply IHok].
    apply Hperm, Hok in Hin as (y & Hy).
    apply bind_Ok in Hy as (id_list & Hid & _). eauto.
  - intros z. rewrite IHin, elem_of_app, Hvalid. split.
    + intros [[Hz|(args & y & Hin & Hy & Hz)]|(args & id_list & Hin & Hrest)].
      * by left.
      * right. apply bind_Ok in Hy as (id_list & Hid & [= <-]).
        apply list_elem_of_filter in Hz as [Hkeep Hz].
        exists args, id_list. rewrite elem_of_app, <-Hperm. auto.
      * right. exists args, id_list. rewrite elem_of_app. auto.
    + intros [Hz|(args & id_list & [Hin|Hin]%elem_of_app & Hid & Hz & Hkeep)].
      * by left; left.
      * left; right. exists args, (filter (fun id_num =>
          check_char = "-"%char ∨ Some check_char = last id_num) id_list).
        split; [by apply Hperm|]. rewrite Hid. split; [done|].
        by apply list_elem_of_filter.
      * right. eauto 10.
Qed.

(** ** The shape of a candidate *)

Lemma index_Ok (s : str) i c : 0 ≤ i → Py.index s i = Ok c → (Z.to_nat i < length s)%nat.
Proof.
  intros Hi. unfold Py.index.
  rewrite (proj2 (Z.ltb_ge i 0)) by done. rewrite (proj2 (Z.ltb_ge i 0)) by done.
  destruct (s !! Z.to_nat i) eqn:Hl; [|done]. intros _. by eapply lookup_lt_Some.
Qed.

Lemma parse_pattern_lengths input_id pat :
  parse_pattern input_id = Ok pat →
  length (region pat) = 6%nat ∧ length (sequence pat) = 3%nat.
Proof.
  unfold parse_pattern. intros (c & Hc & [= <-])%bind_Ok.
  apply index_Ok in Hc; [|lia]. simpl. unfold Py.slice.
  rewrite !length_take, !length_drop. lia.
Qed.

Lemma re_compile_length p r : Py.re_compile p = Ok r → length r = length p.
Proof.
  revert r. induction p as [|c p IH]; intros r; simpl; [by intros [= <-]|].
  destruct (decide _); [|destruct (Py.metachar c); [done|]];
    intros (r' & Hr' & [= <-])%bind_Ok; simpl; f_equal; by apply IH.
Qed.

Lemma re_match_length r s : Py.re_match r s = true → (length r ≤ length s)%nat.
Proof.
  revert s. induction r as [|a r IH]; intros [|c s]; simpl; try (done || lia).
  intros [_ ?%IH]%andb_true_iff. lia.
Qed.

Lemma filter_regions_length valid_regions p matching code :
  filter_regions valid_regions p = Ok matching → code ∈ matching →
  (length p ≤ length code)%nat.
Proof.
  unfold filter_regions. intros (r & Hr & [= <-])%bind_Ok [Hm _]%list_elem_of_filter.
  apply re_compile_length in Hr. rewrite replace_length in Hr. rewrite <-Hr.
  by apply re_match_length, Is_true_true.
Qed.

Lemma format_0d_length width n : (width ≤ length (Py.format_0d width n))%nat.
Proof.
  unfold Py.format_0d. destruct (n <? 0); simpl;
    rewrite length_app, length_replicate; lia.
Qed.

Lemma generate_dates_length yp mp dp dates date_str :
  generate_dates yp mp dp = Ok dates → date_str ∈ dates → (8 ≤ length date_str)%nat.
Proof.
  unfold generate_dates. intros (years & _ & Hdates)%bind_Ok Hin.
  apply for_each_elem_of in Hdates as [_ Hdates].
  apply Hdates in Hin as (y & ds & _ & (months & _ & Hds)%bind_Ok & Hin).
  apply for_each_elem_of in Hds as [_ Hds].
  apply Hds in Hin as (m & ds' & _ & Hattempt & Hin).
  destruct (bind _ _) as [found|] eqn:Hfound in Hattempt; injection Hattempt as <-;
    [|by apply elem_of_nil in Hin].
  apply bind_Ok in Hfound as (max_day & _ & Hfound).
  apply bind_Ok in Hfound as (days & _ & [= <-]).
  apply list_elem_of_fmap in Hin as (d & -> & _).
  unfold date_string. rewrite !length_app.
  pose proof (format_0d_length 4 y). pose proof (format_0d_length 2 m).
  pose proof (format_0d_length 2 d). lia.
Qed.

Lemma product_elem_length {A : Type} (pools : list (list A)) l :
  l ∈ product pools → length l = length pools.
Proof.
  revert l. induction pools as [|pool pools IH]; intros l; simpl.
  { by intros ->%list_elem_of_singleton. }
  intros (x & (l' & -> & Hl')%list_elem_of_fmap & _)%list_elem_of_bind.
  simpl. f_equal. by apply IH.
Qed.

Lemma generate_sequence_elem_length p s :
  s ∈ generate_sequence p → length s = length p.
Proof.
  unfold generate_sequence. destruct (_ =? 0).
  - by intros ->%list_elem_of_singleton.
  - intros ->%product_elem_length. by rewrite length_fmap.
Qed.

Lemma generate_components_length valid_regions input_id pat chunks region date_str seq :
  parse_pattern input_id = Ok pat →
  generate_components valid_regions pat = Ok chunks →
  (region, date_str, seq) ∈ chunks →
  (17 ≤ length (region ++ date_str ++ seq))%nat.
Proof.
  intros [Hregion Hseq]%parse_pattern_lengths.
  unfold generate_components. intros (matching & Hmatching & Hchunks)%bind_Ok Hin.
  assert (∃ dates, generate_dates (year pat) (month pat) (day pat) = Ok dates
                   ∧ chunks = (r ← matching; d ← dates;
                               s ← generate_sequence (sequence pat); [(r, d, s)]))
    as (dates & Hdates & ->).
  { destruct matching as [|code codes]; [done|].
    apply bind_Ok in Hchunks as (dates & Hdates & Heq).
    exists dates. split; [done|]. by injection Heq. }
  apply list_elem_of_bind in Hin as (r & Hin & Hr).
  apply list_elem_of_bind in Hin as (d & Hin & Hd).
  apply list_elem_of_bind in Hin as (s & Hin & Hs).
  apply list_elem_of_singleton in Hin as [= -> -> ->].
  pose proof (filter_regions_length _ _ _ _ Hmatching Hr).
  pose proof (generate_dates_length _ _ _ _ _ Hdates Hd).
  apply generate_sequence_elem_length in Hs.
  rewrite !length_app. lia.
Qed.

Lemma calculate_check_code_take id_17 :
  calculate_check_code (take 17 id_17) = calculate_check_code id_17.
Proof.
  unfold calculate_check_code.
  by rewrite <-(zip_with_take_l pair id_17 weights).
Qed.

Lemma process_batch_Ok region date_str seq id_list :
  process_batch (region, date_str, seq) = Ok id_list ↔
  ∃ c, calculate_check_code (region ++ date_str ++ seq) = Ok c
       ∧ id_list = [(region ++ date_str ++ seq) ++ [c]].
Proof.
  unfold process_batch. rewrite bind_Ok. split.
  - intros (c & Hc & [= <-]). eauto.
  - intros (c & Hc & ->). eauto.
Qed.

(** ** The check filter of [parallel_generate] *)

(** C2. Every identity number that [parallel_generate] returns ends in the
    check character that [calculate_check_code] computes from its first 17
    characters; and the identity number of a candidate is in the output
    exactly when the check field of the pattern is the wildcard or equals the
    computed check character, so the output is empty when the check field is
    a literal that equals no computed check character. *)
Theorem parallel_generate_check_filter
    (valid_regions : gset str)
    (order : nat → list (str * str * str) → list (str * str * str))
    (input_id : str) (final : list str) :
  completion_order order →
  parallel_generate valid_regions order input_id = Ok final →
  ∃ pat chunks,
    parse_pattern input_id = Ok pat
    ∧ generate_components valid_regions pat = Ok chunks
    ∧ (∀ id_num, id_num ∈ final →
         ∃ c, last id_num = Some c
              ∧ calculate_check_code (take 17 id_num) = Ok c)
    ∧ (∀ region date_str seq, (region, date_str, seq) ∈ chunks →
         ∃ c, calculate_check_code (region ++ date_str ++ seq) = Ok c
              ∧ ((region ++ date_str ++ seq) ++ [c] ∈ final
                 ↔ check pat = "-"%char ∨ check pat = c))
    ∧ (check pat ≠ "-"%char →
       (∀ region date_str seq c, (region, date_str, seq) ∈ chunks →
          calculate_check_code (region ++ date_str ++ seq) = Ok c →
          check pat ≠ c) →
       final = []).
Proof.
  intros Horder Hrun. unfold parallel_generate in Hrun.
  apply bind_Ok in Hrun as (pat & Hpat & Hrun).
  apply bind_Ok in Hrun as (chunks & Hchunks & Hrun).
  apply bind_Ok in Hrun as (results & Hresults & [= <-]).
  apply batch_loop_elem_of in Hresults as [Hok Hin]; [|done|lia].
  exists pat, chunks. split; [done|]. split; [done|].
  assert (∀ z, z ∈ dedup_loop results ∅ [] ↔
            ∃ region date_str seq c,
              (region, date_str, seq) ∈ chunks
              ∧ calculate_check_code (region ++ date_str ++ seq) = Ok c
              ∧ z = (region ++ date_str ++ seq) ++ [c]
              ∧ (check pat = "-"%char ∨ check pat = c)) as Hfinal.
  { intros z. rewrite dedup_loop_elem_of, Hin, !elem_of_nil, elem_of_empty. split.
    - intros [[]|[[[]|([[r d] s] & id_list & Hargs & Hid & Hz & Hkeep)] _]].
      apply process_batch_Ok in Hid as (c & Hc & ->).
      apply list_elem_of_singleton in Hz as ->.
      rewrite last_snoc in Hkeep. exists r, d, s, c.
      repeat split; try done. destruct Hkeep as [?|[= ?]]; auto.
    - intros (r & d & s & c & Hargs & Hc & -> & Hkeep). right. split; [|tauto].
      right. exists (r, d, s), [(r ++ d ++ s) ++ [c]].
      split; [done|]. split; [apply process_batch_Ok; eauto|].
      split; [by apply list_elem_of_singleton|].
      rewrite last_snoc. destruct Hkeep as [?| ->]; auto. }
  split; [|split].
  - intros id_num (r & d & s & c & Hargs & Hc & -> & _)%Hfinal.
    exists c. split; [apply last_snoc|].
    pose proof (generate_components_length _ _ _ _ _ _ _ Hpat Hchunks Hargs).
    by rewrite take_app_le, calculate_check_code_take by done.
  - intros r d s Hargs.
    destruct (Hok _ Hargs) as (id_list & Hid).
    apply process_batch_Ok in Hid as (c & Hc & _).
    exists c. split; [done|]. rewrite Hfinal. split.
    + intros (r' & d' & s' & c' & _ & Hc' & Heq & Hkeep).
      apply app_inj_2 in Heq as [Heq [= ->]]; [done|done].
    + intros Hkeep. by exists r, d, s, c.
  - intros Hliteral Hnone.
    destruct (dedup_loop results ∅ []) as [|z final] eqn:Hfin; [done|].
    assert (z ∈ z :: final) as (r & d & s & c & Hargs & Hc & _ & [?|?])%Hfinal
      by left; [done|].
    by destruct (Hnone r d s c).
Qed.

Lemma parallel_generate_check_filter_witness :
  ∃ pat chunks,
    parse_pattern (lit "1101011990010100-5") = Ok pat
    ∧ generate_components {[ lit "110101" ]} pat = Ok chunks
    ∧ (∀ id_num, id_num ∈ [lit "110101199001010015"] →
         ∃ c, last id_num = Some c
              ∧ calculate_check_code (take 17 id_num) = Ok c)
    ∧ (∀ region date_str seq, (region, date_str, seq) ∈ chunks →
         ∃ c, calculate_check_code (region ++ date_str ++ seq) = Ok c
              ∧ ((region ++ date_str ++ seq) ++ [c] ∈ [lit "110101199001010015"]
                 ↔ check pat = "-"%char ∨ check pat = c))
    ∧ (check pat ≠ "-"%char →
       (∀ region date_str seq c, (region, date_str, seq) ∈ chunks →
          calculate_check_code (region ++ date_str ++ seq) = Ok c →
          check pat ≠ c) →
       [lit "110101199001010015"] = []).
Proof.
  apply (parallel_generate_check_filter {[ lit "110101" ]} (fun _ batch => batch)
           (lit "1101011990010100-5") [lit "110101199001010015"]).
  - intros k batch. reflexivity.
  - vm_compute. reflexivity.
Defined.

(** * Further properties of the code *)

(** ** [parse_pattern] *)

Lemma parse_pattern_Ok (input_id : str) :
  (18 ≤ length input_id)%nat →
  ∃ pat, parse_pattern input_id = Ok pat
         ∧ region pat ++ year pat ++ month pat ++ day pat ++ sequence pat
             ++ [check pat] = take 18 input_id
         ∧ length (region pat) = 6%nat ∧ length (year pat) = 4%nat
         ∧ length (month pat) = 2%nat ∧ length (day pat) = 2%nat
         ∧ length (sequence pat) = 3%nat.
Proof.
  intros Hlen.
  do 18 (destruct input_id as [|? input_id]; [simpl in Hlen; lia|]).
  eexists. split; [reflexivity|]. by repeat split.
Qed.

(** X1. On an input of at least 18 characters [parse_pattern] returns six
    fields of 6, 4, 2, 2, 3 and 1 characters that, put together again, are
    the first 18 characters of the input; what follows them is ignored. *)
Theorem parse_pattern_fields (input_id : str) :
  (18 ≤ length input_id)%nat →
  ∃ pat, parse_pattern input_id = Ok pat
         ∧ region pat ++ year pat ++ month pat ++ day pat ++ sequence pat
             ++ [check pat] = take 18 input_id
         ∧ length (region pat) = 6%nat ∧ length (year pat) = 4%nat
         ∧ length (month pat) = 2%nat ∧ length (day pat) = 2%nat
         ∧ length (sequence pat) = 3%nat.
Proof. apply parse_pattern_Ok. Qed.

Lemma parse_pattern_fields_witness :
  ∃ pat, parse_pattern (lit "11010119900101001X") = Ok pat
         ∧ region pat ++ year pat ++ month pat ++ day pat ++ sequence pat
             ++ [check pat] = take 18 (lit "11010119900101001X")
         ∧ length (region pat) = 6%nat ∧ length (year pat) = 4%nat
         ∧ length (month pat) = 2%nat ∧ length (day pat) = 2%nat
         ∧ length (sequence pat) = 3%nat.
Proof.
  apply (parse_pattern_fields (lit "11010119900101001X")). vm_compute. lia.
Defined.

(** X2. An input shorter than 18 characters makes [parse_pattern], and with
    it [parallel_generate], raise IndexError, whatever the whitelist is. *)
Theorem parse_pattern_short_input (input_id : str) :
  (length input_id < 18)%nat →
  parse_pattern input_id = Raise IndexError
  ∧ ∀ valid_regions order,
      parallel_generate valid_regions order input_id = Raise IndexError.
Proof.
  intros Hlen.
  assert (parse_pattern input_id = Raise IndexError) as Hparse.
  { unfold parse_pattern, Py.index. change (17 <? 0) with false. cbv zeta iota.
    change (17 <? 0) with false. cbv iota. change (Z.to_nat 17) with 17%nat.
    by rewrite (lookup_ge_None_2 input_id 17) by lia. }
  split; [done|]. intros valid_regions order.
  unfold parallel_generate. by rewrite Hparse.
Qed.

Lemma parse_pattern_short_input_witness :
  parse_pattern (lit "1101011990") = Raise IndexError
  ∧ ∀ valid_regions order,
      parallel_generate valid_regions order (lit "1101011990") = Raise IndexError.
Proof. apply (parse_pattern_short_input (lit "1101011990")). vm_compute. lia. Defined.

(** ** [filter_regions] on arbitrary keys *)

(** X3. Whatever the whitelist keys are, [filter_regions] is a match anchored
    at the start of the key only: it returns, once each, the keys that are at
    least as long as the pattern and whose first characters match it, a
    wildcard taking any character but the line feed.  A key longer than the
    pattern is returned, a shorter one never. *)
Theorem filter_regions_prefix (valid_regions : gset str) (p : str) :
  wildcard_pattern p →
  ∃ matching, filter_regions valid_regions p = Ok matching
       ∧ NoDup matching
       ∧ ∀ code, code ∈ matching ↔ code ∈ valid_regions ∧ prefix_matches p code.
Proof.
  intros Hp. destruct (re_compile_pattern p Hp) as (r & Hr & Hmatch).
  unfold filter_regions. rewrite Hr. cbn [bind]. eexists. split; [done|]. split.
  - apply NoDup_filter, NoDup_elements.
  - intros code. rewrite list_elem_of_filter, elem_of_elements, Is_true_true, Hmatch.
    unfold prefix_matches. tauto.
Qed.

Lemma filter_regions_prefix_witness :
  ∃ matching, filter_regions {[ lit "1101011"; lit "11010" ]} (lit "11010-") = Ok matching
       ∧ NoDup matching
       ∧ ∀ code, code ∈ matching ↔
           code ∈ ({[ lit "1101011"; lit "11010" ]} : gset str)
           ∧ prefix_matches (lit "11010-") code.
Proof.
  apply (filter_regions_prefix {[ lit "1101011"; lit "11010" ]} (lit "11010-")).
  apply (bool_decide_unpack _). vm_compute. exact I.
Defined.

(** ** [calculate_check_code] on arbitrary strings *)

Lemma check_code_products_raise (s : str) (ws : list Z) :
  (length s ≤ length ws)%nat → ¬ digit_string s →
  for_each (fun '(c, w) => d <- Py.int [c]; Ok [d * w]) (zip s ws)
  = Raise InvalidLiteral.
Proof.
  revert ws. induction s as [|c s IH]; intros ws Hlen Hnot.
  { destruct Hnot. constructor. }
  destruct ws as [|w ws]; [simpl in Hlen; lia|].
  simpl. destruct (Py.digit_of_char c) as [d|] eqn:Hd; [|done].
  simpl. rewrite IH; [done|simpl in Hlen; lia|].
  intros Hs. apply Hnot. constructor; [by eexists|done].
Qed.

(** X4. [calculate_check_code] reads the first 17 characters only.  When they
    are all digits it returns a character of "0123456789X", also for a string
    shorter than 17; otherwise it raises the ValueError of [int()]. *)
Theorem calculate_check_code_domain (s : str) :
  if decide (digit_string (take 17 s))
  then ∃ c, calculate_check_code s = Ok c ∧ c ∈ lit "0123456789X"
  else calculate_check_code s = Raise InvalidLiteral.
Proof.
  rewrite <-(calculate_check_code_take s). unfold calculate_check_code.
  destruct (decide (digit_string (take 17 s))) as [Hd|Hd].
  - rewrite check_code_products by done. cbn [bind].
    destruct (check_codes_index
                (Py.sum ((fun '(c, w) => default 0 (Py.digit_of_char c) * w)
                           <$> zip (take 17 s) weights) mod 11))
      as (c & Hc & _ & Hin); [apply Z.mod_pos_bound; lia|].
    by exists c.
  - rewrite check_code_products_raise; [done| |done].
    rewrite length_take. change (length weights) with 17%nat. lia.
Qed.

(** ** The check character and the standard *)

Lemma calculate_check_code_index (id_17 : str) :
  length id_17 = 17%nat → digit_string id_17 →
  calculate_check_code id_17 = Py.index check_codes (weighted_sum id_17 mod 11).
Proof.
  intros Hlen Hdigits.
  unfold calculate_check_code. rewrite (check_code_products _ _ Hdigits).
  do 18 (destruct id_17 as [|? id_17]; try discriminate Hlen). clear Hlen Hdigits.
  unfold weighted_sum, weights, Py.sum.
  cbn [bind fmap list_fmap zip zip_with fold_left seq foldr lookup list_lookup
       mbind option_bind default from_option id].
  do 2 f_equal. lia.
Qed.

Lemma check_codes_index_value k c :
  0 ≤ k < 11 → Py.index check_codes k = Ok c → (k + check_value c) mod 11 = 1.
Proof.
  intros Hk.
  assert (k = 0 ∨ k = 1 ∨ k = 2 ∨ k = 3 ∨ k = 4 ∨ k = 5 ∨ k = 6 ∨ k = 7
          ∨ k = 8 ∨ k = 9 ∨ k = 10) as Hcases by lia.
  repeat destruct Hcases as [->|Hcases]; try subst k; by intros [= <-].
Qed.

Lemma check_codes_index_inj k1 k2 c :
  0 ≤ k1 < 11 → 0 ≤ k2 < 11 →
  Py.index check_codes k1 = Ok c → Py.index check_codes k2 = Ok c → k1 = k2.
Proof.
  intros Hk1 Hk2 H1 H2.
  pose proof (check_codes_index_value _ _ Hk1 H1) as V1.
  pose proof (check_codes_index_value _ _ Hk2 H2) as V2.
  revert V1 V2. generalize (check_value c). intros v V1 V2.
  rewrite Z.add_mod in V1, V2 by lia.
  pose proof (Z.mod_pos_bound v 11). Z.div_mod_to_equations. lia.
Qed.

(** X5. The check character makes the number valid under ISO 7064 MOD 11-2,
    the test of GB 11643-1999: the weighted sum of the 17 digits plus the
    value of the check character ('X' counting as 10) is 1 modulo 11. *)
Theorem check_character_valid (id_17 : str) (c : ascii) :
  length id_17 = 17%nat → digit_string id_17 →
  calculate_check_code id_17 = Ok c →
  (weighted_sum id_17 + check_value c) mod 11 = 1.
Proof.
  intros Hlen Hdigits. rewrite calculate_check_code_index by done. intros Hc.
  rewrite <-Z.add_mod_idemp_l by lia.
  apply check_codes_index_value; [apply Z.mod_pos_bound; lia|done].
Qed.

Lemma check_character_valid_witness :
  (weighted_sum (lit "11010119900101001") + check_value "5"%char) mod 11 = 1.
Proof.
  apply (check_character_valid (lit "11010119900101001") "5"%char).
  - reflexivity.
  - apply (bool_decide_unpack _). vm_compute. exact I.
  - vm_compute. reflexivity.
Defined.

(** ** What the check character detects *)

Lemma digit_value_inj a b :
  is_Some (Py.digit_of_char a) → is_Some (Py.digit_of_char b) →
  default 0 (Py.digit_of_char a) = default 0 (Py.digit_of_char b) → a = b.
Proof.
  intros [x Hx] [y Hy]. rewrite Hx, Hy. simpl. intros ->.
  apply digit_of_char_Some in Hx as [_ <-]. by apply digit_of_char_Some in Hy as [_ <-].
Qed.

Lemma check_codes_differ (id_17 id_17' : str) c c' :
  length id_17 = 17%nat → digit_string id_17 →
  length id_17' = 17%nat → digit_string id_17' →
  weighted_sum id_17 mod 11 ≠ weighted_sum id_17' mod 11 →
  calculate_check_code id_17 = Ok c → calculate_check_code id_17' = Ok c' →
  c ≠ c'.
Proof.
  intros Hl Hd Hl' Hd' Hsum. rewrite !calculate_check_code_index by done.
  intros Hc Hc' <-. apply Hsum.
  eapply check_codes_index_inj; [apply Z.mod_pos_bound; lia..|done|done].
Qed.

(** X6. The check character detects every change of a single digit: two
    17-digit numbers that differ at one position only never have the same
    check character. *)
Theorem single_digit_change_detected (id_17 : str) (i : nat) (b c c' : ascii) :
  length id_17 = 17%nat → digit_string id_17 →
  is_Some (Py.digit_of_char b) → (i < 17)%nat → id_17 !! i ≠ Some b →
  calculate_check_code id_17 = Ok c →
  calculate_check_code (<[i:=b]> id_17) = Ok c' →
  c ≠ c'.
Proof.
  intros Hlen Hdigits Hb Hi Hne.
  apply check_codes_differ; [done|done|by rewrite length_insert| |].
  { apply Forall_insert; done. }
  do 18 (destruct id_17 as [|? id_17]; try discriminate Hlen). clear Hlen.
  pose proof (digit_value_bounds b) as Hbv.
  do 17 (destruct i as [|i];
         [ cbn [lookup list_lookup] in Hne;
           match type of Hne with
           | Some ?x ≠ Some b =>
               assert (is_Some (Py.digit_of_char x)) as Hx
                 by (eapply Forall_forall in Hdigits; [exact Hdigits|by repeat constructor]);
               assert (default 0 (Py.digit_of_char x) ≠ default 0 (Py.digit_of_char b))
                 by (intros Heq; apply Hne; f_equal; by apply digit_value_inj);
               pose proof (digit_value_bounds x)
           end;
           unfold weighted_sum, weights;
           cbn [fmap list_fmap seq foldr lookup list_lookup mbind option_bind
                default from_option id insert list_insert];
           Z.div_mod_to_equations; lia
         | ]).
  lia.
Qed.

Lemma single_digit_change_detected_witness :
  calculate_check_code (lit "11010119900101001") = Ok "5"%char
  ∧ calculate_check_code (<[16%nat:="0"%char]> (lit "11010119900101001")) = Ok "7"%char
  ∧ "5"%char ≠ "7"%char.
Proof.
  split; [vm_compute; reflexivity|]. split; [vm_compute; reflexivity|].
  apply (single_digit_change_detected (lit "11010119900101001") 16 "0"%char
           "5"%char "7"%char).
  - reflexivity.
  - apply (bool_decide_unpack _). vm_compute. exact I.
  - by eexists.
  - lia.
  - discriminate.
  - vm_compute. reflexivity.
  - vm_compute. reflexivity.
Defined.

(** X7. The check character detects every exchange of two neighbouring
    digits that differ. *)
Theorem adjacent_transposition_detected (id_17 : str) (i : nat) (a b c c' : ascii) :
  length id_17 = 17%nat → digit_string id_17 → (S i < 17)%nat →
  id_17 !! i = Some a → id_17 !! S i = Some b → a ≠ b →
  calculate_check_code id_17 = Ok c →
  calculate_check_code (<[i:=b]> (<[S i:=a]> id_17)) = Ok c' →
  c ≠ c'.
Proof.
  intros Hlen Hdigits Hi Ha Hb Hne.
  assert (is_Some (Py.digit_of_char a)) as Hda
    by (eapply Forall_forall in Hdigits; [exact Hdigits|by eapply list_elem_of_lookup_2]).
  assert (is_Some (Py.digit_of_char b)) as Hdb
    by (eapply Forall_forall in Hdigits; [exact Hdigits|by eapply list_elem_of_lookup_2]).
  apply check_codes_differ; [done|done|by rewrite !length_insert| |].
  { by repeat apply Forall_insert. }
  assert (default 0 (Py.digit_of_char a) ≠ default 0 (Py.digit_of_char b))
    by (intros Heq; by apply Hne, digit_value_inj).
  pose proof (digit_value_bounds a). pose proof (digit_value_bounds b).
  do 18 (destruct id_17 as [|? id_17]; try discriminate Hlen). clear Hlen Hdigits.
  do 16 (destruct i as [|i];
         [ injection Ha as ->; injection Hb as ->;
           unfold weighted_sum, weights;
           cbn [fmap list_fmap seq foldr lookup list_lookup mbind option_bind
                default from_option id insert list_insert];
           Z.div_mod_to_equations; lia
         | ]).
  lia.
Qed.

Lemma adjacent_transposition_detected_witness :
  calculate_check_code (lit "11010119900101001") = Ok "5"%char
  ∧ calculate_check_code (lit "11010119900101010") = Ok "3"%char
  ∧ "5"%char ≠ "3"%char.
Proof.
  split; [vm_compute; reflexivity|]. split; [vm_compute; reflexivity|].
  apply (adjacent_transposition_detected (lit "11010119900101001") 15
           "0"%char "1"%char "5"%char "3"%char).
  - reflexivity.
  - apply (bool_decide_unpack _). vm_compute. exact I.
  - lia.
  - reflexivity.
  - reflexivity.
  - discriminate.
  - vm_compute. reflexivity.
  - vm_compute. reflexivity.
Defined.

(** ** [generate_sequence] *)

Lemma product_elem_of {A : Type} (pools : list (list A)) (l : list A) :
  l ∈ product pools ↔ Forall2 (fun pool x => x ∈ pool) pools l.
Proof.
  revert l. induction pools as [|pool pools IH]; intros l; simpl.
  { rewrite list_elem_of_singleton. split; [intros ->; constructor|by inversion 1]. }
  rewrite list_elem_of_bind. split.
  - intros (x & (l' & -> & Hl')%list_elem_of_fmap & Hx).
    constructor; [done|]. by apply IH.
  - intros Hall. destruct l as [|x l']; [by inversion Hall|].
    apply Forall2_cons in Hall as [Hx Hl']. exists x. split; [|done].
    apply list_elem_of_fmap. exists l'. split; [done|]. by apply IH.
Qed.

Lemma product_NoDup {A : Type} (pools : list (list A)) :
  Forall NoDup pools → NoDup (product pools).
Proof.
  induction 1 as [|pool pools Hpool _ IH]; simpl; [apply NoDup_singleton|].
  apply NoDup_bind; [|intros x _; by apply NoDup_fmap_2; [intros ?? [=]|]|done].
  intros x1 x2 y _ _ (l1 & -> & _)%list_elem_of_fmap (l2 & [= -> _] & _)%list_elem_of_fmap.
  done.
Qed.

Lemma digit_pool c : c ∈ lit "0123456789" ↔ is_Some (Py.digit_of_char c).
Proof.
  split.
  - intros Hc. repeat (apply elem_of_cons in Hc as [->|Hc]; [by eexists|]).
    by apply elem_of_nil in Hc.
  - intros [d Hd]. apply digit_of_char_Some in Hd as [Hd <-].
    assert (d = 0 ∨ d = 1 ∨ d = 2 ∨ d = 3 ∨ d = 4 ∨ d = 5 ∨ d = 6 ∨ d = 7
            ∨ d = 8 ∨ d = 9) as Hcases by lia.
    repeat destruct Hcases as [->|Hcases]; try subst d;
      apply (bool_decide_unpack _); vm_compute; exact I.
Qed.

(** X8. [generate_sequence] yields, once each, exactly the strings that fill
    the wildcards of the pattern with digits and keep every other character
    of it; a pattern without wildcard is yielded as it is, whatever its
    characters are. *)
Theorem generate_sequence_expands (p : str) :
  NoDup (generate_sequence p)
  ∧ ∀ s, s ∈ generate_sequence p ↔ expands p s.
Proof.
  unfold generate_sequence, expands.
  destruct (Py.count "-" p =? 0) eqn:Hcount.
  - split; [apply NoDup_singleton|]. intros s. rewrite list_elem_of_singleton.
    assert ("-"%char ∉ p) as Hno.
    { apply Z.eqb_eq in Hcount. unfold Py.count in Hcount.
      intros Hin. assert ("-"%char ∈ filter (fun c => c = "-"%char) p) as Hf
        by (by apply list_elem_of_filter).
      destruct (filter _ p); [by apply elem_of_nil in Hf|done]. }
    clear Hcount. split.
    + intros ->. apply Forall2_same_length_lookup_2; [done|].
      intros i c o Hc Ho. simplify_eq. rewrite decide_False; [done|].
      intros ->. apply Hno. by eapply list_elem_of_lookup_2.
    + intros Hall. revert Hno. induction Hall as [|c o p s Hco _ IH]; [done|].
      intros [Hc Hno]%not_elem_of_cons. rewrite decide_False in Hco by done.
      subst o. f_equal. by apply IH.
  - clear Hcount. split.
    + apply product_NoDup, Forall_fmap, Forall_forall. intros c _. simpl.
      destruct (decide _); [|apply NoDup_singleton].
      apply (bool_decide_unpack _). vm_compute. exact I.
    + intros s. rewrite product_elem_of, Forall2_fmap_l.
      split; intros Hall; (eapply Forall2_impl; [exact Hall|]); intros c o;
        unfold compose; destruct (decide _);
        first [apply digit_pool | apply list_elem_of_singleton].
Qed.

(** ** Patterns with an 'X' *)

Lemma int_raise (s : str) : ¬ digit_string s → Py.int s = Raise InvalidLiteral.
Proof.
  intros Hnot. destruct s as [|c s]; [done|]. unfold Py.int.
  generalize 0 as acc. revert Hnot. generalize (c :: s) as t. clear.
  induction t as [|c t IH]; intros Hnot acc; [destruct Hnot; constructor|].
  simpl. destruct (Py.digit_of_char c) as [d|] eqn:Hd; [|done].
  apply IH. intros Ht. apply Hnot. constructor; [by eexists|done].
Qed.

Lemma X_not_digit : Py.digit_of_char "X" = None.
Proof. reflexivity. Qed.

Lemma input_chars_wildcard_pattern p :
  input_chars p → "X"%char ∉ p → wildcard_pattern p.
Proof.
  intros Hp Hno. apply Forall_forall. intros c Hc.
  pose proof (proj1 (Forall_forall _ _) Hp c Hc) as [Hd|[-> | ->]];
    [by right|by left|done].
Qed.

Lemma replace_keeps_X d p : "X"%char ∈ p → ¬ digit_string (Py.replace "-" d p).
Proof.
  intros Hin Hd. eapply Forall_forall in Hd as [x Hx].
  2:{ unfold Py.replace. apply list_elem_of_fmap. exists "X"%char. split; [|done].
      by rewrite decide_False. }
  by rewrite X_not_digit in Hx.
Qed.

Lemma generate_numbers_input_chars (p : str) (min_val max_val : Z) :
  input_chars p →
  if decide (p ≠ [] ∧ "X"%char ∉ p)
  then ∃ l, generate_numbers p min_val max_val = Ok l
  else generate_numbers p min_val max_val = Raise InvalidLiteral.
Proof.
  intros Hp. destruct (decide _) as [[Hne HX]|Hbad].
  - apply generate_numbers_total; [done|]. by apply input_chars_wildcard_pattern.
  - unfold generate_numbers. destruct (decide (p = [])) as [->|Hne]; [done|].
    assert ("X"%char ∈ p) as HX.
    { destruct (decide ("X"%char ∈ p)); [done|]. destruct Hbad. by split. }
    destruct (bool_decide _) eqn:Hwild.
    + rewrite int_raise; [done|]. intros Hd.
      eapply Forall_forall in Hd as [x Hx]; [|exact HX]. by rewrite X_not_digit in Hx.
    + rewrite ljust_id by apply replace_length.
      rewrite int_raise; [done|]. by apply replace_keeps_X.
Qed.

(** X9. On a pattern over the characters the command line admits (digits,
    '-' and 'X'), [generate_numbers] returns exactly when the pattern is not
    empty and holds no 'X'; otherwise it raises the ValueError of [int()],
    whatever the bounds are. *)
Theorem generate_numbers_domain (p : str) (min_val max_val : Z) :
  input_chars p →
  if decide (p ≠ [] ∧ "X"%char ∉ p)
  then ∃ l, generate_numbers p min_val max_val = Ok l
  else generate_numbers p min_val max_val = Raise InvalidLiteral.
Proof. apply generate_numbers_input_chars. Qed.

Lemma generate_numbers_domain_witness :
  generate_numbers (lit "19X-") 1900 2999 = Raise InvalidLiteral.
Proof.
  apply (generate_numbers_domain (lit "19X-") 1900 2999).
  apply (bool_decide_unpack _). vm_compute. exact I.
Defined.

(** X10. The [try] of [generate_dates] covers the day loop only.  An 'X' in
    the day field is swallowed: with well-formed year and month fields
    [generate_dates] yields no date and raises nothing.  An 'X' in the year
    field is not: [generate_dates] and [estimate_dates] raise the ValueError
    of [int()]. *)
Theorem generate_dates_day_error_swallowed (year_pattern month_pattern day_pattern : str) :
  input_chars year_pattern → input_chars day_pattern → "X"%char ∈ day_pattern →
  month_pattern ≠ [] → wildcard_pattern month_pattern →
  if decide (year_pattern ≠ [] ∧ "X"%char ∉ year_pattern)
  then generate_dates year_pattern month_pattern day_pattern = Ok []
  else generate_dates year_pattern month_pattern day_pattern = Raise InvalidLiteral
       ∧ ∀ region sequence check,
           estimate_dates
             (Pattern region year_pattern month_pattern day_pattern sequence check)
           = Raise InvalidLiteral.
Proof.
  intros Hyp Hdp HX Hmne Hmp.
  pose proof (generate_numbers_input_chars year_pattern 1900 2999 Hyp) as Hy.
  destruct (decide _) as [[Hyne HyX]|Hbad].
  - destruct Hy as [years Hy].
    destruct (generate_numbers_total month_pattern 1 12 Hmne Hmp) as [months Hm].
    rewrite (generate_dates_Ok _ _ _ _ _ Hy Hm). f_equal.
    apply bind_nil_bodies. intros y. apply bind_nil_bodies. intros m.
    pose proof (generate_numbers_input_chars day_pattern 1 (true_day_count y m) Hdp) as Hd.
    rewrite decide_False in Hd by tauto. by rewrite Hd.
  - split.
    + unfold generate_dates. by rewrite Hy.
    + intros region sequence check. unfold estimate_dates. simpl. by rewrite Hy.
Qed.

Lemma generate_dates_day_error_swallowed_witness :
  generate_dates (lit "1990") (lit "0-") (lit "X1") = Ok [].
Proof.
  apply (generate_dates_day_error_swallowed (lit "1990") (lit "0-") (lit "X1"));
    first [discriminate | apply (bool_decide_unpack _); vm_compute; exact I].
Defined.

(** ** The candidates of a well-formed input *)

Lemma parse_pattern_well_formed (input_id : str) :
  length input_id = 18%nat → wildcard_pattern (take 17 input_id) →
  ∃ pat, parse_pattern input_id = Ok pat
         ∧ input_id = region pat ++ year pat ++ month pat ++ day pat
                        ++ sequence pat ++ [check pat]
         ∧ (length (region pat) = 6%nat ∧ wildcard_pattern (region pat))
         ∧ (length (year pat) = 4%nat ∧ wildcard_pattern (year pat))
         ∧ (length (month pat) = 2%nat ∧ wildcard_pattern (month pat))
         ∧ (length (day pat) = 2%nat ∧ wildcard_pattern (day pat))
         ∧ (length (sequence pat) = 3%nat ∧ wildcard_pattern (sequence pat)).
Proof.
  intros Hlen Hp.
  do 19 (destruct input_id as [|? input_id]; try discriminate Hlen). clear Hlen.
  cbn [take] in Hp. unfold wildcard_pattern in *.
  repeat match goal with
         | H : Forall _ (_ :: _) |- _ => apply Forall_cons in H as [? H]
         end.
  eexists. split; [reflexivity|]. cbn.
  repeat split; repeat (apply Forall_cons; split; [done|]); apply Forall_nil_2.
Qed.

Lemma generate_components_elem_of valid_regions pat chunks :
  generate_components valid_regions pat = Ok chunks →
  ∃ matching dates,
    filter_regions valid_regions (region pat) = Ok matching
    ∧ matching ≠ []
    ∧ generate_dates (year pat) (month pat) (day pat) = Ok dates
    ∧ ∀ r d s, (r, d, s) ∈ chunks ↔
        r ∈ matching ∧ d ∈ dates ∧ s ∈ generate_sequence (sequence pat).
Proof.
  unfold generate_components. intros (matching & Hmatching & Hchunks)%bind_Ok.
  assert (matching ≠ [] ∧
          ∃ dates, generate_dates (year pat) (month pat) (day pat) = Ok dates
                   ∧ chunks = (r ← matching; d ← dates;
                               s ← generate_sequence (sequence pat); [(r, d, s)]))
    as (Hne & dates & Hdates & ->).
  { destruct matching as [|code codes]; [done|]. split; [done|].
    apply bind_Ok in Hchunks as (dates & Hdates & Heq).
    exists dates. split; [done|]. by injection Heq. }
  exists matching, dates. split; [done|]. split; [done|]. split; [done|].
  intros r d s. rewrite list_elem_of_bind. split.
  - intros (r' & Hin & Hr). apply list_elem_of_bind in Hin as (d' & Hin & Hd).
    apply list_elem_of_bind in Hin as (s' & Hin & Hs).
    by apply list_elem_of_singleton in Hin as [= -> -> ->].
  - intros (Hr & Hd & Hs). exists r. split; [|done].
    apply list_elem_of_bind. exists d. split; [|done].
    apply list_elem_of_bind. exists s. split; [|done].
    by apply list_elem_of_singleton.
Qed.

Lemma generate_numbers_format p min_val max_val l n :
  p ≠ [] → wildcard_pattern p →
  generate_numbers p min_val max_val = Ok l → n ∈ l →
  agrees p (Py.format_0d (length p) n)
  ∧ zero_padded (length p) n (Py.format_0d (length p) n).
Proof.
  intros Hne Hp Hgen Hn.
  apply (generate_numbers_elem_of _ _ _ _ _ Hne Hp Hgen) in Hn
    as (_ & s & Hs & Hag).
  assert (0 < length p)%nat by (destruct p; [done|simpl; lia]).
  by rewrite <-(zero_padded_format _ _ _ ltac:(done) Hs).
Qed.

Lemma agrees_app p1 p2 s1 s2 :
  agrees p1 s1 → agrees p2 s2 → agrees (p1 ++ p2) (s1 ++ s2).
Proof. apply Forall2_app. Qed.

Lemma generate_dates_well_formed yp mp dp dates d :
  (length yp = 4%nat ∧ wildcard_pattern yp) →
  (length mp = 2%nat ∧ wildcard_pattern mp) →
  (length dp = 2%nat ∧ wildcard_pattern dp) →
  generate_dates yp mp dp = Ok dates → d ∈ dates →
  length d = 8%nat ∧ agrees (yp ++ mp ++ dp) d ∧ digit_string d.
Proof.
  intros [Ly Hyp] [Lm Hmp] [Ld Hdp] Hdates Hin.
  assert (yp ≠ [] ∧ mp ≠ [] ∧ dp ≠ []) as (Hyne & Hmne & Hdne)
    by (by destruct yp, mp, dp).
  destruct (generate_numbers_total yp 1900 2999 Hyne Hyp) as [years Hy].
  destruct (generate_numbers_total mp 1 12 Hmne Hmp) as [months Hm].
  rewrite (generate_dates_Ok _ _ _ _ _ Hy Hm) in Hdates. injection Hdates as <-.
  apply list_elem_of_bind in Hin as (y & Hin & Hiy).
  apply list_elem_of_bind in Hin as (m & Hin & Him).
  apply list_elem_of_fmap in Hin as (day & -> & Hid).
  destruct (generate_numbers dp 1 (true_day_count y m)) as [days|] eqn:Hd;
    [|by apply elem_of_nil in Hid].
  destruct (generate_numbers_format _ _ _ _ _ Hyne Hyp Hy Hiy) as [Ay (Zy & Dy & _)].
  destruct (generate_numbers_format _ _ _ _ _ Hmne Hmp Hm Him) as [Am (Zm & Dm & _)].
  destruct (generate_numbers_format _ _ _ _ _ Hdne Hdp Hd Hid) as [Ad (Zd & Dd & _)].
  rewrite Ly in *. rewrite Lm in *. rewrite Ld in *. unfold date_string.
  split; [rewrite !length_app; lia|]. split.
  - by repeat apply agrees_app.
  - by repeat (apply Forall_app; split).
Qed.

Lemma expands_agrees p s : expands p s → agrees p s.
Proof.
  intros Hex. eapply Forall2_impl; [exact Hex|]. intros c o. cbn beta.
  destruct (decide (c = "-"%char)); auto.
Qed.

Lemma expands_digits p s : wildcard_pattern p → expands p s → digit_string s.
Proof.
  intros Hp Hex. induction Hex as [|c o p s Hco _ IH]; [constructor|].
  apply Forall_cons in Hp as [Hc Hp]. constructor; [|by apply IH].
  destruct (decide (c = "-"%char)) as [->|Hne]; [done|]. subst o. by destruct Hc.
Qed.

Lemma generate_sequence_expands_elem p s : s ∈ generate_sequence p → expands p s.
Proof.
  unfold generate_sequence, expands.
  destruct (Py.count "-" p =? 0) eqn:Hcount.
  - intros ->%list_elem_of_singleton.
    assert ("-"%char ∉ p) as Hno.
    { apply Z.eqb_eq in Hcount. unfold Py.count in Hcount.
      intros Hin. assert ("-"%char ∈ filter (fun c => c = "-"%char) p) as Hf
        by (by apply list_elem_of_filter).
      destruct (filter _ p); [by apply elem_of_nil in Hf|done]. }
    apply Forall2_same_length_lookup_2; [done|].
    intros i c o Hc Ho. simplify_eq. rewrite decide_False; [done|].
    intros ->. apply Hno. by eapply list_elem_of_lookup_2.
  - rewrite product_elem_of, Forall2_fmap_l. intros Hall.
    eapply Forall2_impl; [exact Hall|]. intros c o. unfold compose.
    destruct (decide _); first [apply digit_pool | apply list_elem_of_singleton].
Qed.

(** The output of a run, candidate by candidate. *)
Lemma parallel_generate_elem_of valid_regions order input_id final :
  completion_order order →
  parallel_generate valid_regions order input_id = Ok final →
  ∃ pat chunks,
    parse_pattern input_id = Ok pat
    ∧ generate_components valid_regions pat = Ok chunks
    ∧ ∀ z, z ∈ final ↔
        ∃ r d s c,
          (r, d, s) ∈ chunks
          ∧ calculate_check_code (r ++ d ++ s) = Ok c
          ∧ z = (r ++ d ++ s) ++ [c]
          ∧ (check pat = "-"%char ∨ check pat = c).
Proof.
  intros Horder Hrun. unfold parallel_generate in Hrun.
  apply bind_Ok in Hrun as (pat & Hpat & Hrun).
  apply bind_Ok in Hrun as (chunks & Hchunks & Hrun).
  apply bind_Ok in Hrun as (results & Hresults & [= <-]).
  apply batch_loop_elem_of in Hresults as [Hok Hin]; [|done|lia].
  exists pat, chunks. split; [done|]. split; [done|].
  intros z. rewrite dedup_loop_elem_of, Hin, !elem_of_nil, elem_of_empty. split.
  - intros [[]|[[[]|([[r d] s] & id_list & Hargs & Hid & Hz & Hkeep)] _]].
    apply process_batch_Ok in Hid as (c & Hc & ->).
    apply list_elem_of_singleton in Hz as ->.
    rewrite last_snoc in Hkeep. exists r, d, s, c.
    repeat split; try done. destruct Hkeep as [?|[= ?]]; auto.
  - intros (r & d & s & c & Hargs & Hc & -> & Hkeep). right. split; [|tauto].
    right. exists (r, d, s), [(r ++ d ++ s) ++ [c]].
    split; [done|]. split; [apply process_batch_Ok; eauto|].
    split; [by apply list_elem_of_singleton|].
    rewrite last_snoc. destruct Hkeep as [?| ->]; auto.
Qed.

(** X11. Every identity number that [parallel_generate] returns for an
    18-character input whose first 17 characters are digits or wildcards has
    18 characters and equals the input at every position that is not a
    wildcard (the whitelist keys being 6-character codes). *)
Theorem parallel_generate_matches_input
    (valid_regions : gset str)
    (order : nat → list (str * str * str) → list (str * str * str))
    (input_id : str) (final : list str) :
  completion_order order →
  (∀ code, code ∈ valid_regions → region_code code) →
  length input_id = 18%nat → wildcard_pattern (take 17 input_id) →
  parallel_generate valid_regions order input_id = Ok final →
  ∀ id_num, id_num ∈ final → length id_num = 18%nat ∧ agrees input_id id_num.
Proof.
  intros Horder Hkeys Hlen Hp Hrun id_num Hin.
  destruct (parse_pattern_well_formed input_id Hlen Hp)
    as (pat & Hpat & Hinput & [Lr Hr] & Hy & Hm & Hd & [Ls Hs]).
  destruct (parallel_generate_elem_of _ _ _ _ Horder Hrun)
    as (pat' & chunks & Hpat' & Hchunks & Hfinal).
  assert (pat' = pat) as -> by congruence. clear Hpat'.
  destruct (proj1 (Hfinal id_num) Hin) as (r & d & s & c & Hargs & _ & -> & Hcheck).
  destruct (generate_components_elem_of _ _ _ Hchunks)
    as (matching & dates & Hmatching & _ & Hdates & Hmem).
  destruct (proj1 (Hmem r d s) Hargs) as (Hir & Hid & His).
  destruct (generate_dates_well_formed _ _ _ _ _ Hy Hm Hd Hdates Hid)
    as (Ld & Ad & _).
  apply generate_sequence_expands_elem in His.
  pose proof (Forall2_length _ _ _ His) as Ls'.
  assert (region_code r ∧ agrees (region pat) r) as [[Lr' Hnl] Ar].
  { unfold filter_regions in Hmatching.
    apply bind_Ok in Hmatching as (rx & Hrx & [= <-]).
    apply list_elem_of_filter in Hir as [Hm' Hvalid%elem_of_elements].
    pose proof (Hkeys r Hvalid) as Hcode. split; [done|]. destruct Hcode as [Lr' Hnl].
    apply (re_match_agrees _ rx); [done|done|congruence|done|by apply Is_true_true]. }
  split; [rewrite !length_app; simpl; lia|].
  rewrite Hinput, <-!app_assoc.
  apply agrees_app; [done|]. rewrite !app_assoc in Ad.
  rewrite (app_assoc (year pat)), (app_assoc (year pat ++ month pat)).
  rewrite (app_assoc _ (sequence pat)).
  rewrite (app_assoc d). apply agrees_app.
  - apply agrees_app; [done|by apply expands_agrees].
  - constructor; [|constructor]. destruct Hcheck; auto.
Qed.

Lemma parallel_generate_matches_input_witness :
  length (lit "110101199001010015") = 18%nat
  ∧ agrees (lit "1101011990010100-5") (lit "110101199001010015").
Proof.
  apply (parallel_generate_matches_input {[ lit "110101" ]} (fun _ batch => batch)
           (lit "1101011990010100-5") [lit "110101199001010015"]).
  - intros k batch. reflexivity.
  - intros code ->%elem_of_singleton. split; [reflexivity|].
    apply (bool_decide_unpack _). vm_compute. exact I.
  - reflexivity.
  - apply (bool_decide_unpack _). vm_compute. exact I.
  - vm_compute. reflexivity.
  - left.
Defined.

(** ** When a run succeeds *)

Lemma for_each_total {A B : Type} (body : A → result (list B)) xs :
  (∀ x, x ∈ xs → ∃ y, body x = Ok y) → ∃ ys, for_each body xs = Ok ys.
Proof.
  induction xs as [|x xs IH]; intros Hbody; simpl; [by eexists|].
  destruct (Hbody x) as [y ->]; [left|].
  destruct IH as [ys ->]; [intros x' Hx'; apply Hbody; by right|].
  by eexists.
Qed.

Lemma batch_loop_total order fuel k check_char chunks results :
  completion_order order →
  (∀ args, args ∈ chunks → ∃ id_list, process_batch args = Ok id_list) →
  ∃ out, batch_loop order fuel k check_char chunks results = Ok out.
Proof.
  intros Horder. revert k chunks results.
  induction fuel as [|fuel IH]; intros k chunks results Hok; simpl; [by eexists|].
  destruct (islice chunks chunk_size) as [batch rest] eqn:Hslice.
  pose proof (islice_app _ _ _ _ Hslice) as ->.
  destruct batch as [|args0 batch]; [by eexists|].
  edestruct (for_each_total
               (fun args => id_list <- process_batch args;
                  Ok (filter (fun id_num =>
                                check_char = "-"%char ∨ Some check_char = last id_num)
                             id_list))
               (order k (args0 :: batch))) as [valid ->].
  { intros args Hin. rewrite (Horder k (args0 :: batch)) in Hin.
    destruct (Hok args) as [id_list ->]; [apply elem_of_app; by left|].
    by eexists. }
  cbn [bind]. apply IH. intros args Hin. apply Hok, elem_of_app. by right.
Qed.

Lemma calculate_check_code_total (id_17 : str) :
  length id_17 = 17%nat → digit_string id_17 →
  ∃ c, calculate_check_code id_17 = Ok c.
Proof.
  intros Hlen Hdigits. rewrite calculate_check_code_index by done.
  destruct (check_codes_index (weighted_sum id_17 mod 11)) as (c & Hc & _);
    [apply Z.mod_pos_bound; lia|]. by exists c.
Qed.

Lemma filter_regions_elem_of (valid_regions : gset str) (p : str) :
  wildcard_pattern p →
  (∀ code, code ∈ valid_regions → length code = length p ∧ "010"%char ∉ code) →
  ∃ matching, filter_regions valid_regions p = Ok matching
              ∧ ∀ code, code ∈ matching ↔ code ∈ valid_regions ∧ agrees p code.
Proof.
  intros Hp Hkeys.
  destruct (re_compile_pattern p Hp) as (r & Hr & _).
  unfold filter_regions. rewrite Hr. cbn [bind]. eexists. split; [done|].
  intros code. rewrite list_elem_of_filter, elem_of_elements.
  split; intros [H1 H2].
  - split; [done|]. destruct (Hkeys code H2) as [Hl Hnl].
    apply (re_match_agrees p r code); [done..|]. by apply Is_true_true.
  - split; [|done]. destruct (Hkeys code H1) as [Hl Hnl].
    apply Is_true_true. by apply (re_match_agrees p r code).
Qed.

Lemma generate_components_no_match valid_regions pat :
  filter_regions valid_regions (region pat) = Ok [] →
  generate_components valid_regions pat = Raise NoMatchingRegion.
Proof. unfold generate_components. by intros ->. Qed.

Lemma generate_components_Ok valid_regions pat matching dates :
  filter_regions valid_regions (region pat) = Ok matching → matching ≠ [] →
  generate_dates (year pat) (month pat) (day pat) = Ok dates →
  generate_components valid_regions pat
  = Ok (r ← matching; d ← dates; s ← generate_sequence (sequence pat); [(r, d, s)]).
Proof.
  unfold generate_components. intros -> Hne ->. by destruct matching.
Qed.

(** X12. For an 18-character input whose first 17 characters are digits or
    wildcards, and a whitelist of 6-digit keys, [parallel_generate] has two
    outcomes only: it raises the "no matching region" error when no key agrees
    with the first six characters, and otherwise it returns a list. *)
Theorem parallel_generate_outcome
    (valid_regions : gset str)
    (order : nat → list (str * str * str) → list (str * str * str))
    (input_id : str) :
  completion_order order →
  (∀ code, code ∈ valid_regions → length code = 6%nat ∧ digit_string code) →
  length input_id = 18%nat → wildcard_pattern (take 17 input_id) →
  (parallel_generate valid_regions order input_id = Raise NoMatchingRegion
   ∧ ∀ code, code ∈ valid_regions → ¬ agrees (take 6 input_id) code)
  ∨ ((∃ final, parallel_generate valid_regions order input_id = Ok final)
     ∧ ∃ code, code ∈ valid_regions ∧ agrees (take 6 input_id) code).
Proof.
  intros Horder Hkeys Hlen Hp.
  destruct (parse_pattern_well_formed input_id Hlen Hp)
    as (pat & Hpat & Hinput & [Lr Hr] & [Ly Hy] & [Lm Hm] & [Ld Hd] & [Ls Hs]).
  assert (take 6 input_id = region pat) as ->.
  { rewrite Hinput at 1. by rewrite take_app_length'. }
  destruct (filter_regions_elem_of valid_regions (region pat) Hr)
    as (matching & Hmatching & Hmem).
  { intros code [Hl Hdig]%Hkeys. split; [congruence|].
    by apply digit_string_no_newline. }
  unfold parallel_generate. rewrite Hpat. cbn [bind].
  destruct (decide (matching = [])) as [->|Hne].
  { left. rewrite generate_components_no_match by done. split; [done|].
    intros code Hin Hag. eapply elem_of_nil, Hmem. eauto. }
  right. split; [|destruct matching as [|code0 codes]; [done|];
                  exists code0; apply Hmem; left].
  destruct (generate_dates_total (year pat) (month pat) (day pat))
    as [dates Hdates]; [by destruct (year pat)|done|by destruct (month pat)|done|].
  rewrite (generate_components_Ok _ _ _ _ Hmatching Hne Hdates). cbn [bind].
  edestruct (batch_loop_total order) as [out ->]; [done| |by eexists].
  intros [[r d] s] Hin.
  apply list_elem_of_bind in Hin as (r' & Hin & Hir).
  apply list_elem_of_bind in Hin as (d' & Hin & Hid).
  apply list_elem_of_bind in Hin as (s' & Hin & His).
  apply list_elem_of_singleton in Hin as [= <- <- <-].
  apply Hmem in Hir as [[Lr' Dr]%Hkeys _].
  destruct (generate_dates_well_formed _ _ _ _ _ (conj Ly Hy) (conj Lm Hm)
              (conj Ld Hd) Hdates Hid) as (Ld' & _ & Dd).
  apply generate_sequence_expands_elem in His.
  pose proof (Forall2_length _ _ _ His) as Ls'.
  apply (expands_digits _ _ Hs) in His.
  destruct (calculate_check_code_total (r ++ d ++ s)) as [c Hc].
  - rewrite !length_app. lia.
  - by repeat (apply Forall_app; split).
  - eexists. apply process_batch_Ok. eauto.
Qed.

Lemma parallel_generate_outcome_witness :
  (parallel_generate {[ lit "110101" ]} (fun _ batch => batch)
     (lit "3101011990010100--") = Raise NoMatchingRegion
   ∧ ∀ code, code ∈ ({[ lit "110101" ]} : gset str) →
       ¬ agrees (take 6 (lit "3101011990010100--")) code)
  ∨ ((∃ final, parallel_generate {[ lit "110101" ]} (fun _ batch => batch)
                 (lit "3101011990010100--") = Ok final)
     ∧ ∃ code, code ∈ ({[ lit "110101" ]} : gset str)
               ∧ agrees (take 6 (lit "3101011990010100--")) code).
Proof.
  apply (parallel_generate_outcome {[ lit "110101" ]} (fun _ batch => batch)
           (lit "3101011990010100--")).
  - intros k batch. reflexivity.
  - intros code ->%elem_of_singleton. split; [reflexivity|].
    apply (bool_decide_unpack _). vm_compute. exact I.
  - reflexivity.
  - apply (bool_decide_unpack _). vm_compute. exact I.
Defined.

(** ** The estimates against the generators *)

Lemma sum_cons x xs : Py.sum (x :: xs) = x + Py.sum xs.
Proof. unfold Py.sum. simpl. rewrite !fold_left_add. simpl. lia. Qed.

Lemma length_bind_sum {A B : Type} (f : A → list B) (l : list A) :
  Z.of_nat (length (l ≫= f)) = Py.sum ((fun x => Z.of_nat (length (f x))) <$> l).
Proof.
  induction l as [|x l IH]; [done|].
  rewrite bind_cons, length_app, fmap_cons, sum_cons. lia.
Qed.

Lemma sum_fmap_add {A : Type} (f h : A → Z) (l : list A) :
  Py.sum ((fun x => f x + h x) <$> l) = Py.sum (f <$> l) + Py.sum (h <$> l).
Proof.
  induction l as [|x l IH]; [done|]. rewrite !fmap_cons, !sum_cons. lia.
Qed.

Lemma sum_fmap_ext_elem {A : Type} (f h : A → Z) (l : list A) :
  (∀ x, x ∈ l → f x = h x) → Py.sum (f <$> l) = Py.sum (h <$> l).
Proof.
  induction l as [|x l IH]; intros Hext; [done|].
  rewrite !fmap_cons, !sum_cons, (Hext x), IH; [done| |left].
  intros x' Hx'. apply Hext. by right.
Qed.

Lemma length_bind_const {A B : Type} (f : A → list B) (l : list A) (n : nat) :
  (∀ x, length (f x) = n) → length (l ≫= f) = (length l * n)%nat.
Proof.
  intros Hf. induction l as [|x l IH]; [done|].
  rewrite bind_cons, length_app, Hf, IH. simpl. lia.
Qed.

Lemma filter_all {A : Type} (P : A → Prop) `{∀ x, Decision (P x)} (l : list A) :
  Forall P l → filter P l = l.
Proof.
  induction 1 as [|x l Hx _ IH]; [done|].
  by rewrite filter_cons, decide_True, IH.
Qed.

Lemma strongly_sorted_NoDup {A : Type} (R : relation A) (l : list A) :
  (∀ x, ¬ R x x) → StronglySorted R l → NoDup l.
Proof.
  intros Hirr. induction 1 as [|x l _ IH Hx]; constructor; [|done].
  intros Hin. eapply Forall_forall in Hx; [|done]. by eapply Hirr.
Qed.

(** The days [generate_numbers] yields for a month are the days that
    [matching_days] counts. *)
Lemma generate_numbers_count day_part max_day l :
  day_part ≠ [] → wildcard_pattern day_part →
  generate_numbers day_part 1 max_day = Ok l →
  Z.of_nat (length l) = matching_days day_part max_day.
Proof.
  intros Hne Hp Hgen. unfold matching_days. f_equal.
  apply Permutation_length, NoDup_Permutation.
  - eapply (strongly_sorted_NoDup Z.lt); [apply Z.lt_irrefl|].
    by eapply generate_numbers_sorted.
  - apply NoDup_filter, (strongly_sorted_NoDup Z.lt);
      [apply Z.lt_irrefl|apply range_sorted].
  - intros d.
    rewrite (generate_numbers_elem_of _ _ _ _ d Hne Hp Hgen).
    rewrite list_elem_of_filter, range_elem_of.
    pose proof (decimal_value_bounds (Py.replace "-" "9" day_part)) as Hupper.
    rewrite replace_length in Hupper.
    split.
    + intros (Hd & s & Hs & Hag).
      pose proof (zero_padded_range _ _ _ Hs) as Hrange.
      rewrite (zero_padded_unique _ _ _ _ (numeral_zero_padded _ _ Hrange) Hs).
      split; [done|]. destruct Hs as (_ & Hdig & <-).
      pose proof (agrees_bounds _ _ Hp Hdig Hag). lia.
    + intros (Hag & Hd).
      assert (0 ≤ d < 10 ^ Z.of_nat (length day_part)) as Hrange by lia.
      split; [lia|]. exists (numeral (length day_part) d).
      split; [by apply numeral_zero_padded|done].
Qed.

Lemma matching_days_fully_wildcarded day_part max_day :
  length day_part = 2%nat → wildcard_pattern day_part →
  fully_wildcarded day_part → 0 ≤ max_day ≤ 99 →
  matching_days day_part max_day = max_day.
Proof.
  intros Hlen Hp [_ Hnone] Hmax.
  assert (day_part = lit "--") as ->.
  { destruct day_part as [|c1 [|c2 [|? ?]]]; try discriminate Hlen.
    apply Forall_cons in Hp as [H1 [H2 _]%Forall_cons].
    apply Forall_cons in Hnone as [N1 [N2 _]%Forall_cons].
    destruct H1 as [-> | ?]; [|done]. by destruct H2 as [-> | ?]. }
  unfold matching_days.
  change (decimal_value (Py.replace "-" "0" (lit "--"))) with 0.
  change (decimal_value (Py.replace "-" "9" (lit "--"))) with 99.
  rewrite filter_all.
  - unfold Py.range. rewrite length_fmap, length_seq. lia.
  - apply Forall_forall. intros d _.
    pose proof (numeral_length (length (lit "--")) d) as Hl.
    destruct (numeral _ d) as [|o1 [|o2 [|? ?]]]; try discriminate Hl.
    repeat constructor.
Qed.

Lemma month_contribution_nil day_part m : month_contribution [] day_part m = 0.
Proof. unfold month_contribution. simpl. destruct (decide _); lia. Qed.

(** One more year adds to the contribution of a month the days that
    [generate_dates] yields for that year and month. *)
Lemma month_contribution_cons y years day_part m :
  length day_part = 2%nat → wildcard_pattern day_part → 1 ≤ m ≤ 12 →
  month_contribution (y :: years) day_part m
  = Z.of_nat (length (yielded (generate_numbers day_part 1 (true_day_count y m))))
    + month_contribution years day_part m.
Proof.
  intros Hlen Hp Hm.
  assert (day_part ≠ []) as Hne by (by destruct day_part).
  destruct (generate_numbers_total day_part 1 (true_day_count y m) Hne Hp)
    as [days Hdays].
  rewrite Hdays. cbn [yielded].
  rewrite (generate_numbers_count _ _ _ Hne Hp Hdays).
  unfold month_contribution. rewrite !filter_cons.
  pose proof (true_day_count_bounds 2001 m) as Hcommon.
  rewrite <-common_max_day_true in Hcommon.
  assert (∀ max_day, 0 ≤ max_day ≤ 99 → fully_wildcarded day_part →
                     matching_days day_part max_day = max_day) as Hwild
    by (intros; by apply matching_days_fully_wildcarded).
  unfold true_day_count.
  destruct (decide (leap_year y)) as [Hleap|Hleap];
    [rewrite (decide_False (P := ¬ leap_year y)) by tauto
    |rewrite (decide_True (P := ¬ leap_year y)) by done];
    destruct (decide (m = 2)) as [->|Hm2];
    destruct (decide (_ ∧ leap_year y)); try (exfalso; tauto);
    destruct (decide (fully_wildcarded day_part)) as [Hf|Hf];
    rewrite ?length_cons, ?Nat2Z.inj_succ, ?Hwild by (done || lia); nia.
Qed.

Lemma estimate_dates_sum (pat : pattern) years months :
  generate_numbers (year pat) 1900 2999 = Ok years →
  generate_numbers (month pat) 1 12 = Ok months →
  day pat ≠ [] → wildcard_pattern (day pat) →
  estimate_dates pat = Ok (Py.sum (month_contribution years (day pat) <$> months)).
Proof.
  intros Hy Hm Hdne Hdp.
  assert (∀ m, m ∈ months → 1 ≤ m ≤ 12) as Hrange
    by (intros; by eapply generate_numbers_range).
  unfold estimate_dates. rewrite Hy. cbn [bind].
  destruct years as [|y years].
  { f_equal. clear. induction months as [|m months IH]; [done|].
    rewrite fmap_cons, sum_cons, month_contribution_nil. lia. }
  rewrite Hm. cbn [bind]. destruct months as [|m months]; [done|].
  rewrite (for_each_Ok _ (fun m => [month_contribution (y :: years) (day pat) m])).
  - cbn [bind]. by rewrite bind_singleton_fmap.
  - intros m' Hin.
    by destruct (month_estimate_contribution (y :: years) (day pat) m' Hdne Hdp
                   (Hrange m' Hin)) as [-> _].
Qed.

Lemma estimate_dates_length (pat : pattern) (dates : list str) :
  year pat ≠ [] → wildcard_pattern (year pat) →
  month pat ≠ [] → wildcard_pattern (month pat) →
  length (day pat) = 2%nat → wildcard_pattern (day pat) →
  generate_dates (year pat) (month pat) (day pat) = Ok dates →
  estimate_dates pat = Ok (Z.of_nat (length dates)).
Proof.
  intros Hyne Hyp Hmne Hmp Hlen Hdp Hdates.
  destruct (generate_numbers_total (year pat) 1900 2999 Hyne Hyp) as [years Hy].
  destruct (generate_numbers_total (month pat) 1 12 Hmne Hmp) as [months Hm].
  rewrite (generate_dates_Ok _ _ _ _ _ Hy Hm) in Hdates. injection Hdates as <-.
  rewrite (estimate_dates_sum pat years months) by (done || by destruct (day pat)).
  f_equal.
  assert (∀ m, m ∈ months → 1 ≤ m ≤ 12) as Hrange
    by (intros; by eapply generate_numbers_range).
  clear Hy. induction years as [|y years IH].
  { clear. induction months as [|m months IH]; [done|].
    rewrite fmap_cons, sum_cons, month_contribution_nil. simpl in *. lia. }
  rewrite bind_cons, length_app, Nat2Z.inj_add, <-IH, length_bind_sum.
  rewrite <-sum_fmap_add. apply sum_fmap_ext_elem. intros m Hin.
  rewrite length_fmap. by apply month_contribution_cons, Hrange.
Qed.

(** X13. For year, month and day patterns over digits and wildcards (the day
    pattern of two characters, as [parse_pattern] cuts it), the number that
    [estimate_dates] returns is the number of dates [generate_dates] yields. *)
Theorem estimate_dates_counts_generated (pat : pattern) (dates : list str) :
  year pat ≠ [] → wildcard_pattern (year pat) →
  month pat ≠ [] → wildcard_pattern (month pat) →
  length (day pat) = 2%nat → wildcard_pattern (day pat) →
  generate_dates (year pat) (month pat) (day pat) = Ok dates →
  estimate_dates pat = Ok (Z.of_nat (length dates)).
Proof. apply estimate_dates_length. Qed.

Lemma estimate_dates_counts_generated_witness :
  estimate_dates
    (Pattern (lit "110101") (lit "200-") (lit "02") (lit "2-") (lit "001") "-"%char)
  = Ok 93.
Proof.
  assert (∃ dates, generate_dates (lit "200-") (lit "02") (lit "2-") = Ok dates
                   ∧ length dates = 93%nat) as (dates & Hdates & Hcount).
  { eexists. split; vm_compute; reflexivity. }
  change 93 with (Z.of_nat 93). rewrite <-Hcount.
  apply (estimate_dates_counts_generated
           (Pattern (lit "110101") (lit "200-") (lit "02") (lit "2-") (lit "001")
                    "-"%char) dates).
  - discriminate.
  - apply (bool_decide_unpack _). vm_compute. exact I.
  - discriminate.
  - apply (bool_decide_unpack _). vm_compute. exact I.
  - reflexivity.
  - apply (bool_decide_unpack _). vm_compute. exact I.
  - exact Hdates.
Defined.

Lemma estimate_total_length
    (valid_regions : gset str) (pat : pattern) (chunks : list (str * str * str)) :
  year pat ≠ [] → wildcard_pattern (year pat) →
  month pat ≠ [] → wildcard_pattern (month pat) →
  length (day pat) = 2%nat → wildcard_pattern (day pat) →
  generate_components valid_regions pat = Ok chunks →
  estimate_total valid_regions pat = Ok (Z.of_nat (length chunks)).
Proof.
  intros Hyne Hyp Hmne Hmp Hlen Hdp Hchunks.
  unfold generate_components in Hchunks.
  apply bind_Ok in Hchunks as (matching & Hmatching & Hchunks).
  assert (∃ dates, generate_dates (year pat) (month pat) (day pat) = Ok dates
                   ∧ chunks = (r ← matching; d ← dates;
                               s ← generate_sequence (sequence pat); [(r, d, s)]))
    as (dates & Hdates & ->).
  { destruct matching as [|code codes]; [done|].
    apply bind_Ok in Hchunks as (dates & Hdates & Heq).
    exists dates. split; [done|]. by injection Heq. }
  unfold estimate_total. rewrite Hmatching. cbn [bind].
  rewrite (estimate_dates_length pat dates) by done. cbn [bind]. f_equal.
  rewrite <-generate_sequence_length.
  rewrite (length_bind_const _ matching
             (length dates * length (generate_sequence (sequence pat)))); [lia|].
  intros r. apply length_bind_const. intros d.
  rewrite (length_bind_const _ _ 1); [lia|done].
Qed.

(** X14. For a pattern cut from a well-formed input, the total that
    [estimate_total] returns is the number of (region, date, sequence)
    combinations that [generate_components] hands to the workers. *)
Theorem estimate_total_counts_components
    (valid_regions : gset str) (pat : pattern) (chunks : list (str * str * str)) :
  year pat ≠ [] → wildcard_pattern (year pat) →
  month pat ≠ [] → wildcard_pattern (month pat) →
  length (day pat) = 2%nat → wildcard_pattern (day pat) →
  generate_components valid_regions pat = Ok chunks →
  estimate_total valid_regions pat = Ok (Z.of_nat (length chunks)).
Proof. apply estimate_total_length. Qed.

Lemma estimate_total_counts_components_witness :
  estimate_total {[ lit "110101"; lit "110102" ]}
    (Pattern (lit "11010-") (lit "2000") (lit "02") (lit "2-") (lit "00-") "-"%char)
  = Ok 200.
Proof.
  assert (∃ chunks,
            generate_components {[ lit "110101"; lit "110102" ]}
              (Pattern (lit "11010-") (lit "2000") (lit "02") (lit "2-") (lit "00-")
                       "-"%char) = Ok chunks
            ∧ length chunks = 200%nat) as (chunks & Hchunks & Hcount).
  { eexists. split; vm_compute; reflexivity. }
  change 200 with (Z.of_nat 200). rewrite <-Hcount.
  apply (estimate_total_counts_components {[ lit "110101"; lit "110102" ]}
           (Pattern (lit "11010-") (lit "2000") (lit "02") (lit "2-") (lit "00-")
                    "-"%char) chunks).
  - discriminate.
  - apply (bool_decide_unpack _). vm_compute. exact I.
  - discriminate.
  - apply (bool_decide_unpack _). vm_compute. exact I.
  - reflexivity.
  - apply (bool_decide_unpack _). vm_compute. exact I.
  - exact Hchunks.
Defined.

(** ** The number of results *)

Lemma generate_sequence_NoDup (p : str) : NoDup (generate_sequence p).
Proof.
  unfold generate_sequence. destruct (Py.count "-" p =? 0); [apply NoDup_singleton|].
  apply product_NoDup, Forall_fmap, Forall_forall. intros c _. simpl.
  destruct (decide _); [|apply NoDup_singleton].
  apply (bool_decide_unpack _). vm_compute. exact I.
Qed.

Lemma date_lt_irrefl (a : Z * Z * Z) : ¬ date_lt a a.
Proof. destruct a as [[y m] d]. unfold date_lt. lia. Qed.

Lemma generate_dates_NoDup yp mp dp dates :
  yp ≠ [] → wildcard_pattern yp → mp ≠ [] → wildcard_pattern mp →
  generate_dates yp mp dp = Ok dates → NoDup dates.
Proof.
  intros Hyne Hyp Hmne Hmp Hdates.
  destruct (generate_numbers_total yp 1900 2999 Hyne Hyp) as [years Hy].
  destruct (generate_numbers_total mp 1 12 Hmne Hmp) as [months Hm].
  rewrite (generate_dates_Ok _ _ _ _ _ Hy Hm) in Hdates. injection Hdates as <-.
  destruct (generate_dates_triples dp years months)
    as (triples & -> & Hsorted & Hmem).
  { intros y Hin. by eapply generate_numbers_range. }
  { by eapply generate_numbers_sorted. }
  { intros m Hin. by eapply generate_numbers_range. }
  { by eapply generate_numbers_sorted. }
  apply NoDup_fmap_2_strong;
    [|by apply (strongly_sorted_NoDup date_lt); [apply date_lt_irrefl|]].
  assert (∀ y m d, (y, m, d) ∈ triples →
                   YYYYMMDD y m d (date_string y m d)) as Hwf.
  { intros y m d (Hiy & Him & Hid)%Hmem.
    destruct (generate_numbers dp 1 (true_day_count y m)) as [days|] eqn:Hd;
      [|by apply elem_of_nil in Hid].
    pose proof (generate_numbers_range _ _ _ _ _ Hd Hid).
    pose proof (true_day_count_bounds y m).
    apply date_string_YYYYMMDD; [by eapply generate_numbers_range..|lia]. }
  intros [[y m] d] [[y' m'] d'] Hin Hin' Heq.
  pose proof (Hwf _ _ _ Hin) as H1. pose proof (Hwf _ _ _ Hin') as H2.
  rewrite Heq in H1.
  by destruct (YYYYMMDD_inj _ _ _ _ _ _ _ H1 H2) as (-> & -> & ->).
Qed.

Lemma generate_components_inv valid_regions pat chunks :
  generate_components valid_regions pat = Ok chunks →
  ∃ matching dates,
    filter_regions valid_regions (region pat) = Ok matching
    ∧ generate_dates (year pat) (month pat) (day pat) = Ok dates
    ∧ chunks = (r ← matching; d ← dates;
                s ← generate_sequence (sequence pat); [(r, d, s)]).
Proof.
  unfold generate_components. intros (matching & Hmatching & Hchunks)%bind_Ok.
  exists matching. destruct matching as [|code codes]; [done|].
  apply bind_Ok in Hchunks as (dates & Hdates & Heq).
  exists dates. split; [done|]. split; [done|]. by injection Heq.
Qed.

Lemma components_NoDup (matching dates seqs : list str) :
  NoDup matching → NoDup dates → NoDup seqs →
  NoDup (r ← matching; d ← dates; s ← seqs; [(r, d, s)]).
Proof.
  intros Hr Hd Hs.
  assert (∀ r d : str, NoDup (s ← seqs; [(r, d, s)])) as Hinner.
  { intros r d. apply NoDup_bind; [|intros; apply NoDup_singleton|done].
    by intros s1 s2 y _ _ ->%list_elem_of_singleton [= ->]%list_elem_of_singleton. }
  assert (∀ r : str, NoDup (d ← dates; s ← seqs; [(r, d, s)])) as Hmid.
  { intros r. apply NoDup_bind; [|by intros|done].
    intros d1 d2 y _ _ (s1 & ->%list_elem_of_singleton & _)%list_elem_of_bind
      (s2 & [= -> _]%list_elem_of_singleton & _)%list_elem_of_bind. done. }
  apply NoDup_bind; [|by intros|done].
  intros r1 r2 y _ _ (d1 & (s1 & ->%list_elem_of_singleton & _)%list_elem_of_bind & _)%list_elem_of_bind
    (d2 & (s2 & [= -> _ _]%list_elem_of_singleton & _)%list_elem_of_bind & _)%list_elem_of_bind.
  done.
Qed.

Lemma parallel_generate_NoDup valid_regions order input_id final :
  parallel_generate valid_regions order input_id = Ok final → NoDup final.
Proof.
  unfold parallel_generate. intros (pat & _ & Hrun)%bind_Ok.
  apply bind_Ok in Hrun as (chunks & _ & Hrun).
  apply bind_Ok in Hrun as (results & _ & [= <-]).
  apply dedup_loop_NoDup; [apply NoDup_nil_2|by intros x ?%elem_of_nil].
Qed.

(** X15. When the check position of a well-formed input is a wildcard, every
    combination of a region, a date and a sequence number gives one result:
    the list [parallel_generate] returns has as many numbers as
    [estimate_total] announces for the progress bar. *)
Theorem parallel_generate_count
    (valid_regions : gset str)
    (order : nat → list (str * str * str) → list (str * str * str))
    (input_id : str) (final : list str) :
  completion_order order →
  (∀ code, code ∈ valid_regions → length code = 6%nat ∧ digit_string code) →
  length input_id = 18%nat → wildcard_pattern (take 17 input_id) →
  last input_id = Some "-"%char →
  parallel_generate valid_regions order input_id = Ok final →
  ∃ pat, parse_pattern input_id = Ok pat
         ∧ estimate_total valid_regions pat = Ok (Z.of_nat (length final)).
Proof.
  intros Horder Hkeys Hlen Hp Hlast Hrun.
  destruct (parse_pattern_well_formed input_id Hlen Hp)
    as (pat & Hpat & Hinput & [Lr Hr] & [Ly Hy] & [Lm Hm] & [Ld Hd] & [Ls Hs]).
  exists pat. split; [done|].
  assert (check pat = "-"%char) as Hcheck.
  { rewrite Hinput, !app_assoc, last_snoc in Hlast. congruence. }
  destruct (parallel_generate_elem_of _ _ _ _ Horder Hrun)
    as (pat' & chunks & Hpat' & Hchunks & Hfinal).
  assert (pat' = pat) as -> by congruence. clear Hpat'.
  assert (year pat ≠ [] ∧ month pat ≠ []) as [Hyne Hmne]
    by (by destruct (year pat), (month pat)).
  rewrite (estimate_total_length valid_regions pat chunks) by done.
  do 2 f_equal.
  destruct (generate_components_inv _ _ _ Hchunks)
    as (matching & dates & Hmatching & Hdates & Hprod).
  set (id_of := fun args : str * str * str =>
                  let '(r, d, s) := args in
                  match calculate_check_code (r ++ d ++ s) with
                  | Ok c => (r ++ d ++ s) ++ [c]
                  | Raise _ => []
                  end).
  assert (∀ r d s, (r, d, s) ∈ chunks →
            length r = 6%nat ∧ length d = 8%nat
            ∧ ∃ c, calculate_check_code (r ++ d ++ s) = Ok c) as Hwf.
  { intros r d s Hin. rewrite Hprod in Hin.
    apply list_elem_of_bind in Hin as (r' & Hin & Hir).
    apply list_elem_of_bind in Hin as (d' & Hin & Hid).
    apply list_elem_of_bind in Hin as (s' & Hin & His).
    apply list_elem_of_singleton in Hin as [= <- <- <-].
    unfold filter_regions in Hmatching.
    apply bind_Ok in Hmatching as (rx & _ & [= <-]).
    apply list_elem_of_filter in Hir as [_ [Lr' Dr]%elem_of_elements%Hkeys].
    destruct (generate_dates_well_formed _ _ _ _ _ (conj Ly Hy) (conj Lm Hm)
                (conj Ld Hd) Hdates Hid) as (Ld' & _ & Dd).
    apply generate_sequence_expands_elem in His.
    pose proof (Forall2_length _ _ _ His) as Ls'.
    apply (expands_digits _ _ Hs) in His.
    split; [done|]. split; [done|].
    apply calculate_check_code_total; [rewrite !length_app; lia|].
    by repeat (apply Forall_app; split). }
  rewrite <-(length_fmap id_of chunks). symmetry.
  apply Permutation_length, NoDup_Permutation.
  - by eapply parallel_generate_NoDup.
  - apply NoDup_fmap_2_strong.
    + intros [[r d] s] [[r' d'] s'] Hin Hin' Heq.
      destruct (Hwf _ _ _ Hin) as (L1 & L2 & c & Hc).
      destruct (Hwf _ _ _ Hin') as (L1' & L2' & c' & Hc').
      unfold id_of in Heq. rewrite Hc, Hc' in Heq.
      apply app_inj_tail in Heq as [Heq _].
      apply app_inj_1 in Heq as [-> Heq]; [|congruence].
      by apply app_inj_1 in Heq as [-> ->]; [|congruence].
    + rewrite Hprod. apply components_NoDup.
      * unfold filter_regions in Hmatching.
        apply bind_Ok in Hmatching as (rx & _ & [= <-]).
        apply NoDup_filter, NoDup_elements.
      * apply (generate_dates_NoDup _ _ _ _ Hyne Hy Hmne Hm Hdates).
      * apply generate_sequence_NoDup.
  - intros z. rewrite Hfinal, list_elem_of_fmap. split.
    + intros (r & d & s & c & Hin & Hc & -> & _).
      exists (r, d, s). split; [|done]. unfold id_of. by rewrite Hc.
    + intros ([[r d] s] & -> & Hin).
      destruct (Hwf _ _ _ Hin) as (_ & _ & c & Hc).
      exists r, d, s, c. unfold id_of. rewrite Hc. auto.
Qed.

Lemma parallel_generate_count_witness :
  ∃ pat, parse_pattern (lit "11010119900101001-") = Ok pat
         ∧ estimate_total {[ lit "110101" ]} pat = Ok 1.
Proof.
  apply (parallel_generate_count {[ lit "110101" ]} (fun _ batch => batch)
           (lit "11010119900101001-") [lit "110101199001010015"]).
  - intros k batch. reflexivity.
  - intros code ->%elem_of_singleton. split; [reflexivity|].
    apply (bool_decide_unpack _). vm_compute. exact I.
  - reflexivity.
  - apply (bool_decide_unpack _). vm_compute. exact I.
  - reflexivity.
  - vm_compute. reflexivity.
Defined.

(** ** The check of the command line *)

Lemma valid_input_spec (input_id : str) :
  valid_input input_id = true ↔ length input_id = 18%nat ∧ input_chars input_id.
Proof.
  unfold valid_input, input_chars.
  rewrite andb_true_iff, bool_decide_eq_true.
  assert (∀ s : str,
            forallb (fun char => Py.isdigit char || bool_decide (char = "-"%char)
                                 || bool_decide (char = "X"%char)) s = true
            ↔ Forall (fun c => is_Some (Py.digit_of_char c) ∨ c = "-"%char
                               ∨ c = "X"%char) s) as Hall.
  { induction s as [|c s IH]; simpl; [by split; [constructor|]|].
    rewrite andb_true_iff, IH, Forall_cons, !orb_true_iff. unfold Py.isdigit.
    rewrite !bool_decide_eq_true. tauto. }
  by rewrite Hall.
Qed.

Lemma re_match_literals p r s c :
  Py.re_compile p = Ok r → Py.re_match r s = true →
  c ∈ p → c ≠ "."%char → c ∈ s.
Proof.
  revert r s. induction p as [|c' p IH]; intros r s Hr Hmatch Hin Hc;
    [by apply elem_of_nil in Hin|].
  simpl in Hr. apply elem_of_cons in Hin.
  destruct (decide (c' = "."%char)) as [->|Hdot].
  - apply bind_Ok in Hr as (r' & Hr' & [= <-]).
    destruct s as [|o s]; [done|]. simpl in Hmatch.
    apply andb_true_iff in Hmatch as [_ Hmatch].
    destruct Hin as [->|Hin]; [done|]. right. by eapply IH.
  - destruct (Py.metachar c'); [done|].
    apply bind_Ok in Hr as (r' & Hr' & [= <-]).
    destruct s as [|o s]; [done|]. simpl in Hmatch.
    apply andb_true_iff in Hmatch as [Ho%bool_decide_eq_true Hmatch].
    destruct Hin as [->|Hin]; [subst; left|right; by eapply IH].
Qed.

Lemma generate_numbers_Ok_no_X p min_val max_val l :
  input_chars p → generate_numbers p min_val max_val = Ok l → "X"%char ∉ p.
Proof.
  intros Hp Hgen. pose proof (generate_numbers_input_chars p min_val max_val Hp) as H.
  destruct (decide _) as [[_ HX]|_]; [done|congruence].
Qed.

Lemma expands_literals p s c :
  expands p s → c ∈ p → c ≠ "-"%char → c ∈ s.
Proof.
  intros Hex Hin Hc. induction Hex as [|c' o p s Hco _ IH];
    [by apply elem_of_nil in Hin|].
  apply elem_of_cons in Hin as [->|Hin]; [|right; by apply IH].
  rewrite decide_False in Hco by done. subst o. left.
Qed.

Lemma calculate_check_code_raise (s : str) :
  (length s ≤ 17)%nat → ¬ digit_string s →
  calculate_check_code s = Raise InvalidLiteral.
Proof.
  intros Hlen Hnot. unfold calculate_check_code.
  by rewrite check_code_products_raise.
Qed.

(** A date that [generate_dates] yields comes from a year, a month and a day
    that [generate_numbers] yielded. *)
Lemma generate_dates_elem_of_inv yp mp dp dates date_str :
  generate_dates yp mp dp = Ok dates → date_str ∈ dates →
  (∃ y m day, date_str = date_string y m day ∧ 1900 ≤ y ≤ 2999 ∧ 1 ≤ m ≤ 12
               ∧ 1 ≤ day ≤ true_day_count y m)
  ∧ (∃ years, generate_numbers yp 1900 2999 = Ok years)
  ∧ (∃ months, generate_numbers mp 1 12 = Ok months)
  ∧ (∃ max_day days, generate_numbers dp 1 max_day = Ok days).
Proof.
  unfold generate_dates. intros (years & Hy & Hdates)%bind_Ok Hin.
  apply for_each_elem_of in Hdates as [_ Hdates].
  apply Hdates in Hin as (y & ds & Hiy & (months & Hm & Hds)%bind_Ok & Hin).
  apply for_each_elem_of in Hds as [_ Hds].
  apply Hds in Hin as (m & ds' & Him & Hattempt & Hin).
  pose proof (generate_numbers_range _ _ _ _ _ Hy Hiy) as Hyr.
  pose proof (generate_numbers_range _ _ _ _ _ Hm Him) as Hmr.
  rewrite monthrange_days_true in Hattempt by done. cbn [bind] in Hattempt.
  destruct (generate_numbers dp 1 (true_day_count y m)) as [days|] eqn:Hd;
    cbn [bind] in Hattempt; injection Hattempt as <-; [|by apply elem_of_nil in Hin].
  apply list_elem_of_fmap in Hin as (day & -> & Hid).
  pose proof (generate_numbers_range _ _ _ _ _ Hd Hid) as Hdr.
  split; [by exists y, m, day|].
  split; [by exists years|]. split; [by exists months|].
  by exists (true_day_count y m), days.
Qed.

(** X16. The command line accepts an 'X' at any position, but an 'X' among
    the first 17 characters never leads to a result: when the run does not
    raise, it returns the empty list (the whitelist keys being 6-digit
    codes). *)
Theorem misplaced_X_yields_nothing
    (valid_regions : gset str)
    (order : nat → list (str * str * str) → list (str * str * str))
    (input_id : str) (final : list str) :
  completion_order order →
  (∀ code, code ∈ valid_regions → length code = 6%nat ∧ digit_string code) →
  valid_input input_id = true → "X"%char ∈ take 17 input_id →
  parallel_generate valid_regions order input_id = Ok final →
  final = [].
Proof.
  intros Horder Hkeys [Hlen Hchars]%valid_input_spec HX Hrun.
  destruct final as [|z final]; [done|]. exfalso.
  destruct (parse_pattern_Ok input_id ltac:(lia))
    as (pat & Hpat & Hinput & Lr & Ly & Lm & Ld & Ls).
  rewrite take_ge in Hinput by lia.
  destruct (parallel_generate_elem_of _ _ _ _ Horder Hrun)
    as (pat' & chunks & Hpat' & Hchunks & Hfinal).
  assert (pat' = pat) as -> by congruence. clear Hpat'.
  destruct (proj1 (Hfinal z) ltac:(left)) as (r & d & s & c & Hargs & Hc & _).
  destruct (generate_components_elem_of _ _ _ Hchunks)
    as (matching & dates & Hmatching & _ & Hdates & Hmem).
  destruct (proj1 (Hmem r d s) Hargs) as (Hir & Hid & His).
  unfold input_chars in Hchars. rewrite <-Hinput in Hchars, HX.
  rewrite !Forall_app in Hchars.
  destruct Hchars as (Cr & Cy & Cm & Cd & Cs & _).
  rewrite !app_assoc, take_app_length' in HX by (rewrite !length_app; lia).
  destruct (generate_dates_elem_of_inv _ _ _ _ _ Hdates Hid)
    as ((y & m & day & -> & Hyr & Hmr & Hdr) & [years Hy] & [months Hm]
        & (max_day & days & Hd)).
  pose proof (true_day_count_bounds y m) as Hbounds.
  pose proof (YYYYMMDD_length y m day _
                (date_string_YYYYMMDD y m day Hyr Hmr ltac:(lia))) as Ld'.
  apply generate_numbers_Ok_no_X in Hy; [|done].
  apply generate_numbers_Ok_no_X in Hm; [|done].
  apply generate_numbers_Ok_no_X in Hd; [|done].
  unfold filter_regions in Hmatching.
  apply bind_Ok in Hmatching as (rx & Hrx & [= <-]).
  apply list_elem_of_filter in Hir as [Hmatch [Lr' Dr]%elem_of_elements%Hkeys].
  apply generate_sequence_expands_elem in His.
  pose proof (Forall2_length _ _ _ His) as Ls'.
  assert ("X"%char ∉ r) as HXr.
  { intros Hin. eapply Forall_forall in Dr as [x Hx]; [|done].
    by rewrite X_not_digit in Hx. }
  rewrite !elem_of_app in HX. destruct HX as [[[[HX|HX]|HX]|HX]|HX]; try done.
  - apply HXr. apply (re_match_literals _ rx r "X"%char Hrx);
      [by apply Is_true_true| |done].
    unfold Py.replace. apply list_elem_of_fmap. exists "X"%char.
    split; [by rewrite decide_False|done].
  - rewrite calculate_check_code_raise in Hc; [done|rewrite !length_app; lia|].
    intros Hdig. eapply Forall_forall in Hdig as [x Hx].
    2:{ rewrite !elem_of_app. right. right. by eapply expands_literals. }
    by rewrite X_not_digit in Hx.
Qed.

Lemma misplaced_X_yields_nothing_witness :
  parallel_generate {[ lit "110101" ]} (fun _ batch => batch)
    (lit "110101199001X1001-") = Ok []
  ∧ [] = ([] : list str).
Proof.
  assert (parallel_generate {[ lit "110101" ]} (fun _ batch => batch)
            (lit "110101199001X1001-") = Ok []) as Hrun
    by (vm_compute; reflexivity).
  split; [exact Hrun|]. symmetry.
  apply (misplaced_X_yields_nothing {[ lit "110101" ]} (fun _ batch => batch)
           (lit "110101199001X1001-") []).
  - intros k batch. reflexivity.
  - intros code ->%elem_of_singleton. split; [reflexivity|].
    apply (bool_decide_unpack _). vm_compute. exact I.
  - reflexivity.
  - apply (bool_decide_unpack _). vm_compute. exact I.
  - exact Hrun.
Defined.

(** ** What a run returns *)

Lemma calculate_check_code_digits (s : str) (c : ascii) :
  calculate_check_code s = Ok c → digit_string (take 17 s).
Proof.
  intros Hc. destruct (decide (digit_string (take 17 s))) as [|Hnot]; [done|].
  rewrite <-calculate_check_code_take, calculate_check_code_raise in Hc;
    [done|rewrite length_take; lia|done].
Qed.

(** X17. For an input over digits, '-' and 'X', of any length, every number
    that [parallel_generate] returns is well formed when the whitelist keys
    have six characters: a key of the whitelist, then a date of the calendar between 1900 and 2999 written
    YYYYMMDD, then three more characters, these 17 all digits, and last the
    check character that makes the weighted sum plus its value 1 modulo
    11. *)
Theorem parallel_generate_sound
    (valid_regions : gset str)
    (order : nat → list (str * str * str) → list (str * str * str))
    (input_id : str) (final : list str) :
  completion_order order →
  (∀ code, code ∈ valid_regions → length code = 6%nat) →
  input_chars input_id →
  parallel_generate valid_regions order input_id = Ok final →
  ∀ id_num, id_num ∈ final →
    ∃ r d s c y m day,
      id_num = (r ++ d ++ s) ++ [c]
      ∧ r ∈ valid_regions
      ∧ YYYYMMDD y m day d
      ∧ 1900 ≤ y ≤ 2999 ∧ 1 ≤ m ≤ 12 ∧ 1 ≤ day ≤ true_day_count y m
      ∧ length s = 3%nat
      ∧ digit_string (r ++ d ++ s)
      ∧ (weighted_sum (r ++ d ++ s) + check_value c) mod 11 = 1.
Proof.
  intros Horder Hkeys _ Hrun id_num Hin.
  destruct (parallel_generate_elem_of _ _ _ _ Horder Hrun)
    as (pat & chunks & Hpat & Hchunks & Hfinal).
  destruct (proj1 (Hfinal id_num) Hin) as (r & d & s & c & Hargs & Hc & -> & _).
  destruct (generate_components_elem_of _ _ _ Hchunks)
    as (matching & dates & Hmatching & _ & Hdates & Hmem).
  destruct (proj1 (Hmem r d s) Hargs) as (Hir & Hid & His).
  destruct (generate_dates_elem_of_inv _ _ _ _ _ Hdates Hid)
    as ((y & m & day & -> & Hyr & Hmr & Hdr) & _).
  pose proof (true_day_count_bounds y m) as Hbounds.
  pose proof (date_string_YYYYMMDD y m day Hyr Hmr ltac:(lia)) as Hdate.
  pose proof (YYYYMMDD_length _ _ _ _ Hdate) as Ld.
  apply generate_sequence_elem_length in His.
  apply parse_pattern_lengths in Hpat as [_ Ls]. rewrite Ls in His.
  unfold filter_regions in Hmatching.
  apply bind_Ok in Hmatching as (rx & _ & [= <-]).
  apply list_elem_of_filter in Hir as [_ Hr%elem_of_elements].
  pose proof (Hkeys r Hr) as Lr.
  assert (length (r ++ date_string y m day ++ s) = 17%nat) as Hlen
    by (rewrite !length_app; lia).
  pose proof (calculate_check_code_digits _ _ Hc) as Hdigits.
  rewrite take_ge in Hdigits by lia.
  exists r, (date_string y m day), s, c, y, m, day.
  repeat (split; [done|]).
  rewrite calculate_check_code_index in Hc by done.
  rewrite <-Z.add_mod_idemp_l by lia.
  apply check_codes_index_value; [apply Z.mod_pos_bound; lia|done].
Qed.

Lemma parallel_generate_sound_witness :
  ∃ r d s c y m day,
    lit "110101200002290018" = (r ++ d ++ s) ++ [c]
    ∧ r ∈ ({[ lit "110101" ]} : gset str)
    ∧ YYYYMMDD y m day d
    ∧ 1900 ≤ y ≤ 2999 ∧ 1 ≤ m ≤ 12 ∧ 1 ≤ day ≤ true_day_count y m
    ∧ length s = 3%nat
    ∧ digit_string (r ++ d ++ s)
    ∧ (weighted_sum (r ++ d ++ s) + check_value c) mod 11 = 1.
Proof.
  apply (parallel_generate_sound {[ lit "110101" ]} (fun _ batch => batch)
           (lit "11010120000229001-") [lit "110101200002290018"]).
  - intros k batch. reflexivity.
  - by intros code ->%elem_of_singleton.
  - apply (bool_decide_unpack _). vm_compute. exact I.
  - vm_compute. reflexivity.
  - left.
Defined.
